(** * kernelflinger: the UEFI storage adapter of libavb (avb/libavb/uefi_avb_ops.c)

    A shallow embedding of the seven callbacks that [uefi_avb_ops_new] binds
    into the [AvbOps] table, and the properties of them that the design
    document states.

    Conventions of the embedding.
    - C integers are [Z] with the wrap-around written out: [u64] is the
      conversion to [uint64_t], [s64] the conversion to [int64_t].  A
      [size_t] is compared and subtracted after conversion to [uint64_t]
      and is taken in the 64-bit range of the x86_64 loader (the 32-bit
      range of an ia32 build lies within it).  The negation of [INT64_MIN]
      is taken in two's complement.
    - [uint8_t] is [Byte.byte], [char] is [ascii]; a buffer is the list of the
      cells reachable through the pointer, a pointer that may be NULL is an
      [option].
    - The callbacks return their [AvbIOResult] together with the objects they
      may have written: the disk, the call log of the disk protocol, the
      caller's buffer and the caller's out-parameter.
    - Console logging ([error], [avb_error], [avb_debug]) is not modelled.
    - [avb_assert] guards (non-NULL name, buffer and counter) are caller
      preconditions: the corresponding arguments are not optional here. *)

From Stdlib Require Import ZArith Lia Bool Ascii String.
From Stdlib Require Import Init.Byte Strings.Byte.
From stdpp Require Import base list.

Local Open Scope Z_scope.

(** ** Machine integers *)

Definition u64 (z : Z) : Z := z mod 2 ^ 64.
Definition s64 (z : Z) : Z := (z + 2 ^ 63) mod 2 ^ 64 - 2 ^ 63.

Definition is_u64 (z : Z) : Prop := 0 <= z < 2 ^ 64.
Definition is_s64 (z : Z) : Prop := - 2 ^ 63 <= z < 2 ^ 63.
Definition is_u32 (z : Z) : Prop := 0 <= z < 2 ^ 32.

(** ** Result codes (libavb's avb_ops.h) and EFI status *)

Inductive AvbIOResult : Set :=
| AVB_IO_RESULT_OK
| AVB_IO_RESULT_ERROR_OOM
| AVB_IO_RESULT_ERROR_IO
| AVB_IO_RESULT_ERROR_NO_SUCH_PARTITION
| AVB_IO_RESULT_ERROR_RANGE_OUTSIDE_PARTITION.

(** The callbacks look at an [EFI_STATUS] only through [EFI_ERROR]; the
    status is kept as success or an error with its code. *)
Inductive EFI_STATUS : Set :=
| EFI_SUCCESS
| EFI_FAILURE (code : Z).

Definition EFI_ERROR (s : EFI_STATUS) : bool :=
  match s with
  | EFI_SUCCESS => false
  | EFI_FAILURE _ => true
  end.

(** ** The partition handle (gpt.h)

    [struct gpt_partition_interface]: the GPT entry [part] (of which the
    callbacks read [starting_lba], [ending_lba] and the 16 raw bytes of
    [unique]) and the block-io media ([bio->Media->BlockSize],
    [bio->Media->MediaId]).  The disk-io protocol [dio] is the class
    [EFI_DISK_IO] below. *)
Record gpt_partition_interface : Type := {
  starting_lba : Z;
  ending_lba : Z;
  unique : list byte;
  BlockSize : Z;
  MediaId : Z
}.

Definition gpart_wf (g : gpt_partition_interface) : Prop :=
  is_u64 (starting_lba g) /\ is_u64 (ending_lba g) /\
  is_u32 (BlockSize g) /\ is_u32 (MediaId g).

(** ** The disk-io protocol ([EFI_DISK_IO]) *)

Class EFI_DISK_IO (Disk : Type) : Type := {
  (** [ReadDisk(this, MediaId, Offset, BufferSize, Buffer)]: the status and
      the buffer after the call. *)
  ReadDisk : Disk -> Z -> Z -> Z -> list byte -> EFI_STATUS * list byte;
  (** [WriteDisk(this, MediaId, Offset, BufferSize, Buffer)]: the status and
      the disk after the call. *)
  WriteDisk : Disk -> Z -> Z -> Z -> list byte -> EFI_STATUS * Disk
}.

(** A call that reached the disk protocol, with the status it returned. *)
Inductive io_call : Type :=
| ReadDiskCall (media offset size : Z) (status : EFI_STATUS)
| WriteDiskCall (media offset size : Z) (data : list byte) (status : EFI_STATUS).

Record world (Disk : Type) : Type := World {
  storage : Disk;
  calls : list io_call
}.
Arguments World {Disk} _ _.
Arguments storage {Disk} _.
Arguments calls {Disk} _.

(** ** The services of lib.h, gpt.h and vars.h the callbacks call *)

Class Platform : Type := {
  (** [CHAR16] strings. *)
  label : Type;
  (** [stra_to_str]: NULL when the allocation fails. *)
  stra_to_str : string -> option label;
  (** [gpt_get_partition_by_label(label, &gpart, LOGICAL_UNIT_USER)]: the
      status and the handle it stored. *)
  gpt_get_partition_by_label : label -> EFI_STATUS * gpt_partition_interface;
  (** [device_is_unlocked()]. *)
  device_is_unlocked : bool;
  (** The bytes between [_binary_avb_pk_start] and [_binary_avb_pk_end]. *)
  avb_pk : list byte
}.

Definition avb_pk_size `{Platform} : Z := Z.of_nat (length avb_pk).

Definition byte_val (b : byte) : Z := Z.of_N (Byte.to_N b).

(** Modelled from the spec: [memcmp] is declared in lib.h and defined outside
    this file.  It is the "byte-for-byte equality over the presented key's
    length" of the design document, with the C library's result: zero when
    the first [n] bytes agree, else the difference of the first two bytes
    that differ.  A call is defined when both objects hold [n] bytes; an
    object that ends earlier does not compare equal. *)
Fixpoint memcmp (s1 s2 : list byte) (n : nat) {struct n} : Z :=
  match n with
  | O => 0
  | S n' =>
    match s1, s2 with
    | a :: s1', b :: s2' =>
      if Byte.eqb a b then memcmp s1' s2' n' else byte_val a - byte_val b
    | [], [] => 0
    | [], b :: _ => -1
    | a :: _, [] => 1
    end
  end.

Section Adapter.
Context `{P : Platform} {Disk : Type} `{D : !EFI_DISK_IO Disk}.

(** [partition_size] as both I/O callbacks compute it. *)
Definition partition_size_of (gpart : gpt_partition_interface) : Z :=
  u64 (u64 (u64 (ending_lba gpart - starting_lba gpart) + 1) * BlockSize gpart).

Definition read_from_partition (w : world Disk) (partition_name : string)
    (offset_from_partition : Z) (num_bytes : Z)
    (buf : list byte) (out_num_read : Z)
  : AvbIOResult * world Disk * list byte * Z :=
  match stra_to_str partition_name with
  | None => (AVB_IO_RESULT_ERROR_OOM, w, buf, out_num_read)
  | Some label =>
    let '(efi_ret, gpart) := gpt_get_partition_by_label label in
    if EFI_ERROR efi_ret then
      (AVB_IO_RESULT_ERROR_NO_SUCH_PARTITION, w, buf, out_num_read)
    else
      let partition_size := partition_size_of gpart in
      let normalized :=
        if offset_from_partition <? 0 then
          if u64 (s64 (- offset_from_partition)) >? partition_size then None
          else Some (s64 (u64 (partition_size
                               - u64 (s64 (- offset_from_partition)))))
        else Some offset_from_partition in
      match normalized with
      | None =>
        (AVB_IO_RESULT_ERROR_RANGE_OUTSIDE_PARTITION, w, buf, out_num_read)
      | Some offset_from_partition =>
        let out_num_read :=
          if num_bytes >? u64 (partition_size - u64 offset_from_partition)
          then u64 (partition_size - u64 offset_from_partition)
          else num_bytes in
        let disk_offset :=
          u64 (u64 (starting_lba gpart * BlockSize gpart)
               + u64 offset_from_partition) in
        let '(efi_ret, buf) :=
          ReadDisk (storage w) (MediaId gpart) disk_offset out_num_read buf in
        let w := World (storage w)
                   (ReadDiskCall (MediaId gpart) disk_offset out_num_read efi_ret
                    :: calls w) in
        if EFI_ERROR efi_ret then (AVB_IO_RESULT_ERROR_IO, w, buf, 0)
        else (AVB_IO_RESULT_OK, w, buf, out_num_read)
      end
  end.

Definition write_to_partition (w : world Disk) (partition_name : string)
    (offset_from_partition : Z) (num_bytes : Z) (buf : list byte)
  : AvbIOResult * world Disk :=
  match stra_to_str partition_name with
  | None => (AVB_IO_RESULT_ERROR_OOM, w)
  | Some label =>
    let '(efi_ret, gpart) := gpt_get_partition_by_label label in
    if EFI_ERROR efi_ret then (AVB_IO_RESULT_ERROR_NO_SUCH_PARTITION, w)
    else
      let partition_size := partition_size_of gpart in
      let normalized :=
        if offset_from_partition <? 0 then
          if u64 (s64 (- offset_from_partition)) >? partition_size then None
          else Some (s64 (u64 (partition_size
                               - u64 (s64 (- offset_from_partition)))))
        else Some offset_from_partition in
      match normalized with
      | None => (AVB_IO_RESULT_ERROR_RANGE_OUTSIDE_PARTITION, w)
      | Some offset_from_partition =>
        if num_bytes >? u64 (partition_size - u64 offset_from_partition) then
          (AVB_IO_RESULT_ERROR_RANGE_OUTSIDE_PARTITION, w)
        else
          let disk_offset :=
            u64 (u64 (starting_lba gpart * BlockSize gpart)
                 + u64 offset_from_partition) in
          let '(efi_ret, disk) :=
            WriteDisk (storage w) (MediaId gpart) disk_offset num_bytes buf in
          let w := World disk
                     (WriteDiskCall (MediaId gpart) disk_offset num_bytes buf
                        efi_ret :: calls w) in
          if EFI_ERROR efi_ret then (AVB_IO_RESULT_ERROR_IO, w)
          else (AVB_IO_RESULT_OK, w)
      end
  end.

Definition validate_vbmeta_public_key
    (public_key_data : option (list byte)) (public_key_length : Z)
    (public_key_metadata : option (list byte))
    (public_key_metadata_length : Z)
    (out_key_is_trusted : option bool)
  : AvbIOResult * option bool :=
  let out_key_is_trusted :=
    match out_key_is_trusted with
    | Some _ => Some false
    | None => None
    end in
  match public_key_data with
  | None => (AVB_IO_RESULT_ERROR_IO, out_key_is_trusted)
  | Some key =>
    if public_key_length =? 0 then
      (AVB_IO_RESULT_ERROR_IO, out_key_is_trusted)
    else if (public_key_length <=? avb_pk_size)
            && (memcmp avb_pk key (Z.to_nat public_key_length) =? 0) then
      (AVB_IO_RESULT_OK,
       match out_key_is_trusted with
       | Some _ => Some true
       | None => None
       end)
    else (AVB_IO_RESULT_OK, out_key_is_trusted)
  end.

Definition read_rollback_index (w : world Disk) (rollback_index_slot : Z)
    (out_rollback_index : option Z)
  : AvbIOResult * world Disk * option Z :=
  (AVB_IO_RESULT_OK, w,
   match out_rollback_index with
   | Some _ => Some 0
   | None => None
   end).

Definition write_rollback_index (w : world Disk) (rollback_index_slot : Z)
    (rollback_index : Z)
  : AvbIOResult * world Disk :=
  (AVB_IO_RESULT_OK, w).

Definition read_is_device_unlocked (out_is_unlocked : bool)
  : AvbIOResult * bool :=
  (AVB_IO_RESULT_OK, device_is_unlocked).

Definition hex_digits : list ascii :=
  list_ascii_of_string "0123456789abcdef" ++ [Ascii.zero].

(** [set_hex(buf + pos, value)]. *)
Definition set_hex (buf : list ascii) (pos : nat) (value : byte)
  : list ascii :=
  let buf :=
    <[pos := nth (N.to_nat (N.shiftr (Byte.to_N value) 4))
               hex_digits Ascii.zero]> buf in
  <[S pos := nth (N.to_nat (N.land (Byte.to_N value) 15))
               hex_digits Ascii.zero]> buf.

Definition get_unique_guid_for_partition (partition : string)
    (guid_buf : list ascii) (guid_buf_size : Z)
  : AvbIOResult * list ascii :=
  match stra_to_str partition with
  | None => (AVB_IO_RESULT_ERROR_OOM, guid_buf)
  | Some label =>
    let '(efi_ret, gpart) := gpt_get_partition_by_label label in
    if EFI_ERROR efi_ret then (AVB_IO_RESULT_ERROR_IO, guid_buf)
    else if guid_buf_size <? 37 then (AVB_IO_RESULT_ERROR_IO, guid_buf)
    else
      let unique_guid (i : nat) : byte := nth i (unique gpart) x00 in
      let guid_buf := set_hex guid_buf 0 (unique_guid 3%nat) in
      let guid_buf := set_hex guid_buf 2 (unique_guid 2%nat) in
      let guid_buf := set_hex guid_buf 4 (unique_guid 1%nat) in
      let guid_buf := set_hex guid_buf 6 (unique_guid 0%nat) in
      let guid_buf := <[8%nat := "-"%char]> guid_buf in
      let guid_buf := set_hex guid_buf 9 (unique_guid 5%nat) in
      let guid_buf := set_hex guid_buf 11 (unique_guid 4%nat) in
      let guid_buf := <[13%nat := "-"%char]> guid_buf in
      let guid_buf := set_hex guid_buf 14 (unique_guid 7%nat) in
      let guid_buf := set_hex guid_buf 16 (unique_guid 6%nat) in
      let guid_buf := <[18%nat := "-"%char]> guid_buf in
      let guid_buf := set_hex guid_buf 19 (unique_guid 8%nat) in
      let guid_buf := set_hex guid_buf 21 (unique_guid 9%nat) in
      let guid_buf := <[23%nat := "-"%char]> guid_buf in
      let guid_buf := set_hex guid_buf 24 (unique_guid 10%nat) in
      let guid_buf := set_hex guid_buf 26 (unique_guid 11%nat) in
      let guid_buf := set_hex guid_buf 28 (unique_guid 12%nat) in
      let guid_buf := set_hex guid_buf 30 (unique_guid 13%nat) in
      let guid_buf := set_hex guid_buf 32 (unique_guid 14%nat) in
      let guid_buf := set_hex guid_buf 34 (unique_guid 15%nat) in
      let guid_buf := <[36%nat := Ascii.zero]> guid_buf in
      (AVB_IO_RESULT_OK, guid_buf)
  end.

End Adapter.

(** ** A concrete machine

    A four-block RAM disk behind the disk-io protocol and a two-entry
    partition table, on which the callbacks can be run. *)
Module TestBed.

Definition example_unique : list byte :=
  [x33; x22; x11; x00; x55; x44; x77; x66;
   x88; x99; xaa; xbb; xcc; xdd; xee; xff].

(** One block, the second of the disk: bytes 512 to 1023. *)
Definition boot : gpt_partition_interface :=
  {| starting_lba := 1; ending_lba := 1; unique := example_unique;
     BlockSize := 512; MediaId := 0 |}.

(** An entry whose blocks lie past the end of the disk: the transport
    refuses every transfer on it. *)
Definition ghost : gpt_partition_interface :=
  {| starting_lba := 8; ending_lba := 9; unique := example_unique;
     BlockSize := 512; MediaId := 0 |}.

Definition no_partition : gpt_partition_interface :=
  {| starting_lba := 0; ending_lba := 0; unique := [];
     BlockSize := 0; MediaId := 0 |}.

Definition EFI_NOT_FOUND : EFI_STATUS := EFI_FAILURE 14.
Definition EFI_DEVICE_ERROR : EFI_STATUS := EFI_FAILURE 7.

Definition lookup (l : string) : EFI_STATUS * gpt_partition_interface :=
  if String.eqb l "boot" then (EFI_SUCCESS, boot)
  else if String.eqb l "ghost" then (EFI_SUCCESS, ghost)
  else (EFI_NOT_FOUND, no_partition).

#[export] Instance platform : Platform :=
  {| label := string;
     stra_to_str := Some;
     gpt_get_partition_by_label := lookup;
     device_is_unlocked := false;
     avb_pk := [x0a; x0b; x0c; x0d] |}.

Definition ram_read (d : list byte) (media offset size : Z)
    (buf : list byte) : EFI_STATUS * list byte :=
  if offset + size <=? Z.of_nat (length d) then
    (EFI_SUCCESS,
     take (Z.to_nat size) (drop (Z.to_nat offset) d)
       ++ drop (Z.to_nat size) buf)
  else (EFI_DEVICE_ERROR, buf).

Definition ram_write (d : list byte) (media offset size : Z)
    (buf : list byte) : EFI_STATUS * list byte :=
  if offset + size <=? Z.of_nat (length d) then
    (EFI_SUCCESS,
     take (Z.to_nat offset) d ++ take (Z.to_nat size) buf
       ++ drop (Z.to_nat (offset + size)) d)
  else (EFI_DEVICE_ERROR, d).

#[export] Instance ram_disk : EFI_DISK_IO (list byte) :=
  {| ReadDisk := ram_read; WriteDisk := ram_write |}.

Definition blank : world (list byte) := World (replicate 2048 x00) [].

End TestBed.

(** A machine whose table holds one partition of two blocks, the last two
    of the disk: bytes 1024 to 2047. *)
Definition system : gpt_partition_interface :=
  {| starting_lba := 2; ending_lba := 3; unique := TestBed.example_unique;
     BlockSize := 512; MediaId := 0 |}.

Definition two_block_platform : Platform :=
  {| label := string;
     stra_to_str := Some;
     gpt_get_partition_by_label :=
       fun l => if String.eqb l "system" then (EFI_SUCCESS, system)
                else (TestBed.EFI_NOT_FOUND, TestBed.no_partition);
     device_is_unlocked := false;
     avb_pk := [x0a; x0b; x0c; x0d] |}.

(** The same machine with its pool exhausted: no name can be converted. *)
Definition exhausted_platform : Platform :=
  {| label := string;
     stra_to_str := fun _ => None;
     gpt_get_partition_by_label := TestBed.lookup;
     device_is_unlocked := false;
     avb_pk := [x0a; x0b; x0c; x0d] |}.

(** ** The design document's own words

    What the document says the adapter computes, written down independently
    of the code, to be compared with it. *)

(** "If negative, the effective offset is partition_size + offset." *)
Definition spec_effective_offset (partition_size offset : Z) : Z :=
  if offset <? 0 then partition_size + offset else offset.

(** "If offset + length > partition_size, reduce the read length to
    partition_size - offset." *)
Definition spec_read_length (partition_size offset length : Z) : Z :=
  if offset + length >? partition_size then partition_size - offset
  else length.

(** "Trusted if and only if the presented key's length does not exceed the
    reference key's length and its bytes are an exact prefix-length match
    against the reference key." *)
Definition key_matches `{Platform} (key : list byte) (len : Z) : Prop :=
  len <= avb_pk_size
  /\ take (Z.to_nat len) key = take (Z.to_nat len) avb_pk.

(** "Digits are lowercase hex." *)
Definition hex_digit_lower (d : N) : ascii :=
  if (d <? 10)%N then ascii_of_N (48 + d) else ascii_of_N (87 + d).

Definition hex_byte (b : byte) : list ascii :=
  [hex_digit_lower (Byte.to_N b / 16); hex_digit_lower (Byte.to_N b mod 16)].

(** "Bytes [3,2,1,0], [5,4], [7,6], [8,9], [10..15]." *)
Definition guid_groups : list (list nat) :=
  [[3; 2; 1; 0]; [5; 4]; [7; 6]; [8; 9]; [10; 11; 12; 13; 14; 15]]%nat.

(** "Groups are hyphen-separated." *)
Fixpoint hyphenate (groups : list (list ascii)) : list ascii :=
  match groups with
  | [] => []
  | [g] => g
  | g :: rest => g ++ "-"%char :: hyphenate rest
  end.

Definition canonical_guid (raw : list byte) : list ascii :=
  hyphenate
    (map (fun group => concat (map (fun i => hex_byte (nth i raw x00)) group))
         guid_groups).

(** A history of [write_rollback_index] calls, each a slot and a value, run
    in order: the results and the state they leave. *)
Fixpoint write_rollback_history {Disk : Type}
    (w : world Disk) (history : list (Z * Z))
  : list AvbIOResult * world Disk :=
  match history with
  | [] => ([], w)
  | (slot, value) :: rest =>
    let '(res, w) := write_rollback_index w slot value in
    let '(results, w) := write_rollback_history w rest in
    (res :: results, w)
  end.

(** ** What the adapter expects of the transport

    The disk-io protocol is a collaborator of this file.  A disk keeps what
    was written to it: after a [WriteDisk] that succeeded, a [ReadDisk] of
    the same media, offset and size succeeds and fills the first [size]
    bytes of the buffer with the bytes written. *)
Definition read_after_write (Disk : Type) `{!EFI_DISK_IO Disk} : Prop :=
  forall (d d' : Disk) (media offset size : Z) (data buf : list byte),
    0 <= offset -> 0 <= size <= Z.of_nat (length data) ->
    WriteDisk d media offset size data = (EFI_SUCCESS, d') ->
    ReadDisk d' media offset size buf
    = (EFI_SUCCESS,
       take (Z.to_nat size) data ++ drop (Z.to_nat size) buf).

(** The characters of [hex_digits] before its terminator. *)
Definition is_lower_hex (c : ascii) : bool :=
  existsb (Ascii.eqb c) (list_ascii_of_string "0123456789abcdef").

(** The value of a lowercase hexadecimal digit, to read back what
    [set_hex] wrote. *)
Definition hex_value (c : ascii) : N :=
  if (N_of_ascii c <? 58)%N then (N_of_ascii c - 48)%N
  else (N_of_ascii c - 87)%N.

(** * Properties *)

(** ** Machine integers *)

Ltac unfold_ints := unfold u64, s64, is_u64, is_s64, is_u32 in *.
Ltac Zify.zify_post_hook ::= Z.div_mod_to_equations.

Lemma u64_range z : is_u64 (u64 z).
Proof. unfold_ints. lia. Qed.

Lemma u64_small z : is_u64 z -> u64 z = z.
Proof. unfold_ints. lia. Qed.

Lemma s64_small z : is_s64 z -> s64 z = z.
Proof. unfold_ints. lia. Qed.

Lemma u64_s64 z : u64 (s64 z) = u64 z.
Proof. unfold_ints. lia. Qed.

Lemma u64_add_l a b : u64 (u64 a + b) = u64 (a + b).
Proof. unfold_ints. lia. Qed.

Lemma u64_add_r a b : u64 (a + u64 b) = u64 (a + b).
Proof. unfold_ints. lia. Qed.

Lemma u64_sub_r a b : u64 (a - u64 b) = u64 (a - b).
Proof. unfold_ints. lia. Qed.

Lemma partition_size_range (gpart : gpt_partition_interface) :
  is_u64 (partition_size_of gpart).
Proof. apply u64_range. Qed.

(** On a well-formed handle that spans at least one block and whose byte
    size fits 64 bits, [partition_size_of] is the document's
    (ending - starting + 1) * block_size. *)
Lemma partition_size_exact (gpart : gpt_partition_interface) :
  gpart_wf gpart ->
  starting_lba gpart <= ending_lba gpart ->
  (ending_lba gpart - starting_lba gpart + 1) * BlockSize gpart < 2 ^ 64 ->
  partition_size_of gpart
  = (ending_lba gpart - starting_lba gpart + 1) * BlockSize gpart.
Proof.
  intros (Hs & He & Hb & _) Hle Hfit. unfold partition_size_of.
  rewrite (u64_small (ending_lba gpart - starting_lba gpart))
    by (unfold_ints; lia).
  destruct (Z.eq_dec (ending_lba gpart - starting_lba gpart + 1) (2 ^ 64))
    as [Heq | Hne].
  - rewrite Heq in Hfit. assert (BlockSize gpart = 0) by (unfold_ints; nia).
    rewrite Heq, H. reflexivity.
  - rewrite (u64_small (_ + 1)) by (unfold_ints; lia).
    apply u64_small. unfold_ints. nia.
Qed.

(** ** Offset normalisation and the boundary check *)

(** The normalisation step of [read_from_partition] and
    [write_to_partition], on an offset the document calls valid: the code
    continues with the document's effective offset. *)
Lemma normalize_in_range (size off : Z) :
  is_u64 size -> is_s64 off ->
  0 <= spec_effective_offset size off <= size ->
  (if off <? 0 then
     if u64 (s64 (- off)) >? size then None
     else Some (s64 (u64 (size - u64 (s64 (- off)))))
   else Some off)
  = Some (s64 (spec_effective_offset size off)).
Proof.
  unfold spec_effective_offset. intros Hsize Hoff Heff.
  destruct (Z.ltb_spec off 0) as [Hneg | Hpos].
  - assert (Hk : u64 (s64 (- off)) = - off) by (unfold_ints; lia).
    rewrite Hk. destruct (Z.gtb_spec (- off) size) as [Hgt | Hle]; [lia |].
    do 2 f_equal. unfold_ints. lia.
  - rewrite s64_small; [reflexivity | unfold_ints; lia].
Qed.

(** A negative offset that reaches back past the start is refused. *)
Lemma normalize_too_far_back (size off : Z) :
  is_u64 size -> is_s64 off -> off < 0 -> size < - off ->
  (if off <? 0 then
     if u64 (s64 (- off)) >? size then None
     else Some (s64 (u64 (size - u64 (s64 (- off)))))
   else Some off)
  = None.
Proof.
  intros Hsize Hoff Hneg Hfar.
  destruct (Z.ltb_spec off 0) as [_ | Hpos]; [| lia].
  assert (Hk : u64 (s64 (- off)) = - off) by (unfold_ints; lia).
  rewrite Hk. destruct (Z.gtb_spec (- off) size); [reflexivity | lia].
Qed.

Lemma effective_offset_unsigned (size off : Z) :
  is_u64 size -> 0 <= spec_effective_offset size off <= size ->
  u64 (s64 (spec_effective_offset size off)) = spec_effective_offset size off.
Proof.
  intros Hsize Heff. rewrite u64_s64. apply u64_small. unfold_ints. lia.
Qed.

Section PartitionIO.
Context `{P : Platform} {Disk : Type} `{D : !EFI_DISK_IO Disk}.
Implicit Types (w : world Disk) (gpart : gpt_partition_interface).

(** What [read_from_partition] does on a resolved partition and a valid
    offset: one [ReadDisk] of the clamped length at the partition's start
    plus the effective offset. *)
Lemma read_from_partition_valid w name l st gpart off n buf out0 :
  stra_to_str name = Some l ->
  gpt_get_partition_by_label l = (st, gpart) ->
  EFI_ERROR st = false ->
  is_s64 off -> is_u64 n ->
  0 <= spec_effective_offset (partition_size_of gpart) off
    <= partition_size_of gpart ->
  read_from_partition w name off n buf out0
  = let eff := spec_effective_offset (partition_size_of gpart) off in
    let len := spec_read_length (partition_size_of gpart) eff n in
    let disk_offset := u64 (starting_lba gpart * BlockSize gpart + eff) in
    let '(st', data) :=
      ReadDisk (storage w) (MediaId gpart) disk_offset len buf in
    let w' := World (storage w)
                (ReadDiskCall (MediaId gpart) disk_offset len st' :: calls w) in
    if EFI_ERROR st' then (AVB_IO_RESULT_ERROR_IO, w', data, 0)
    else (AVB_IO_RESULT_OK, w', data, len).
Proof.
  intros Hl Hg Hst Hoff Hn Heff.
  pose proof (partition_size_range gpart) as Hsize.
  unfold read_from_partition. rewrite Hl, Hg, Hst.
  rewrite (normalize_in_range _ _ Hsize Hoff Heff). cbv zeta.
  rewrite (effective_offset_unsigned _ _ Hsize Heff).
  rewrite u64_add_l.
  set (size := partition_size_of gpart) in *.
  set (eff := spec_effective_offset size off) in *.
  rewrite (u64_small (size - eff)) by (unfold_ints; lia).
  unfold spec_read_length.
  replace (n >? size - eff) with (eff + n >? size)
    by (destruct (Z.gtb_spec (eff + n) size), (Z.gtb_spec n (size - eff));
        first [reflexivity | lia]).
  reflexivity.
Qed.

(** C4, as the code has it.  On a resolved partition with a well-formed
    handle, the partition size being (ending_lba - starting_lba + 1) *
    BlockSize, a read whose normalised offset lies in [0, partition_size]
    issues one transport read of the clamped length: partition_size - offset
    when offset + length goes past the end, the requested length otherwise.
    When that transport read succeeds the call returns OK and the byte count
    is the clamped length; when it fails the call returns IOError and the
    byte count is 0.  In every case the byte count is at most
    partition_size - offset. *)
Theorem read_from_partition_clamps w name l st gpart off n buf out0 :
  stra_to_str name = Some l ->
  gpt_get_partition_by_label l = (st, gpart) ->
  EFI_ERROR st = false ->
  gpart_wf gpart ->
  starting_lba gpart <= ending_lba gpart ->
  (ending_lba gpart - starting_lba gpart + 1) * BlockSize gpart < 2 ^ 64 ->
  is_s64 off -> is_u64 n ->
  let size := (ending_lba gpart - starting_lba gpart + 1) * BlockSize gpart in
  let eff := spec_effective_offset size off in
  0 <= eff <= size ->
  let len := if eff + n >? size then size - eff else n in
  let disk_offset := u64 (starting_lba gpart * BlockSize gpart + eff) in
  let st' := fst (ReadDisk (storage w) (MediaId gpart) disk_offset len buf) in
  let '(res, w', _, count) := read_from_partition w name off n buf out0 in
  calls w' = ReadDiskCall (MediaId gpart) disk_offset len st' :: calls w /\
  (EFI_ERROR st' = false -> res = AVB_IO_RESULT_OK /\ count = len) /\
  (EFI_ERROR st' = true -> res = AVB_IO_RESULT_ERROR_IO /\ count = 0) /\
  (size < eff + n -> len = size - eff) /\
  (eff + n <= size -> len = n) /\
  count <= size - eff.
Proof.
  intros Hl Hg Hst Hwf Horder Hfit Hoff Hn size eff Heff len disk_offset st'.
  assert (Hsize : partition_size_of gpart = size)
    by (apply partition_size_exact; assumption).
  rewrite (read_from_partition_valid w name l st gpart off n buf out0)
    by (try assumption; rewrite Hsize; exact Heff).
  cbv zeta. rewrite Hsize. fold eff. unfold spec_read_length.
  fold len disk_offset. subst st'.
  destruct (ReadDisk (storage w) (MediaId gpart) disk_offset len buf)
    as [status data].
  assert (Hlen : (size < eff + n -> len = size - eff)
                 /\ (eff + n <= size -> len = n)
                 /\ len <= size - eff).
  { subst len. destruct (Z.gtb_spec (eff + n) size); lia. }
  destruct Hlen as (Hclamp & Hfull & Hbound). cbn [fst].
  destruct (EFI_ERROR status) eqn:Herr; cbn [calls].
  - repeat split; first [assumption | discriminate | lia].
  - repeat split; first [assumption | discriminate | lia].
Qed.

(** C8.  When the transport read that [read_from_partition] issued
    returned an error, the result is IOError and the byte count handed
    back is zero, whatever length was requested from the transport. *)
Theorem read_transport_failure_zeroes_count
    w name off n buf out0 res w' buf' count media o len status :
  read_from_partition w name off n buf out0 = (res, w', buf', count) ->
  calls w' = ReadDiskCall media o len status :: calls w ->
  EFI_ERROR status = true ->
  status = fst (ReadDisk (storage w) media o len buf) /\
  res = AVB_IO_RESULT_ERROR_IO /\ count = 0.
Proof.
  assert (Hself : forall (e : io_call) (t : list io_call), t <> e :: t).
  { intros e t H. apply (f_equal length) in H. simpl in H. lia. }
  unfold read_from_partition. intros Hrun Hcall Herr.
  destruct (stra_to_str name) as [l |];
    [| injection Hrun as <- <- <- <-; now apply Hself in Hcall].
  destruct (gpt_get_partition_by_label l) as [st gpart].
  destruct (EFI_ERROR st);
    [injection Hrun as <- <- <- <-; now apply Hself in Hcall |].
  cbv zeta in Hrun.
  match type of Hrun with
  | match ?norm with _ => _ end = _ => destruct norm as [eff |]
  end; [| injection Hrun as <- <- <- <-; now apply Hself in Hcall].
  match type of Hrun with
  | (let '(_, _) := ?call in _) = _ => destruct call as [efi_ret data] eqn:Hio
  end.
  destruct (EFI_ERROR efi_ret) eqn:Hret;
    injection Hrun as <- <- <- <-; cbn [calls] in Hcall;
    injection Hcall as <- <- <- <-.
  - rewrite Hio. auto.
  - congruence.
Qed.

(** The write path on a resolved partition and a valid offset: refused,
    with nothing sent to the transport, when offset + length goes past the
    end; one [WriteDisk] of the whole request otherwise. *)
Lemma write_to_partition_valid w name l st gpart off n buf :
  stra_to_str name = Some l ->
  gpt_get_partition_by_label l = (st, gpart) ->
  EFI_ERROR st = false ->
  is_s64 off -> is_u64 n ->
  0 <= spec_effective_offset (partition_size_of gpart) off
    <= partition_size_of gpart ->
  write_to_partition w name off n buf
  = let eff := spec_effective_offset (partition_size_of gpart) off in
    if eff + n >? partition_size_of gpart then
      (AVB_IO_RESULT_ERROR_RANGE_OUTSIDE_PARTITION, w)
    else
      let disk_offset := u64 (starting_lba gpart * BlockSize gpart + eff) in
      let '(st', disk) :=
        WriteDisk (storage w) (MediaId gpart) disk_offset n buf in
      let w' := World disk
                  (WriteDiskCall (MediaId gpart) disk_offset n buf st'
                   :: calls w) in
      if EFI_ERROR st' then (AVB_IO_RESULT_ERROR_IO, w')
      else (AVB_IO_RESULT_OK, w').
Proof.
  intros Hl Hg Hst Hoff Hn Heff.
  pose proof (partition_size_range gpart) as Hsize.
  unfold write_to_partition. rewrite Hl, Hg, Hst.
  rewrite (normalize_in_range _ _ Hsize Hoff Heff). cbv zeta.
  rewrite (effective_offset_unsigned _ _ Hsize Heff).
  rewrite u64_add_l.
  set (size := partition_size_of gpart) in *.
  set (eff := spec_effective_offset size off) in *.
  rewrite (u64_small (size - eff)) by (unfold_ints; lia).
  replace (n >? size - eff) with (eff + n >? size)
    by (destruct (Z.gtb_spec (eff + n) size), (Z.gtb_spec n (size - eff));
        first [reflexivity | lia]).
  reflexivity.
Qed.

(** A negative offset -k with 0 < k <= partition_size is served exactly as
    the offset partition_size - k. *)
Lemma negative_offset_from_end w name l st gpart k n buf out0 :
  stra_to_str name = Some l ->
  gpt_get_partition_by_label l = (st, gpart) ->
  EFI_ERROR st = false ->
  is_u64 n ->
  0 < k <= partition_size_of gpart ->
  is_s64 (- k) -> is_s64 (partition_size_of gpart - k) ->
  read_from_partition w name (- k) n buf out0
  = read_from_partition w name (partition_size_of gpart - k) n buf out0
  /\ write_to_partition w name (- k) n buf
    = write_to_partition w name (partition_size_of gpart - k) n buf.
Proof.
  intros Hl Hg Hst Hn Hk Hneg Hpos.
  assert (Heq : spec_effective_offset (partition_size_of gpart) (- k)
                = spec_effective_offset (partition_size_of gpart)
                    (partition_size_of gpart - k)).
  { unfold spec_effective_offset.
    destruct (Z.ltb_spec (- k) 0), (Z.ltb_spec (partition_size_of gpart - k) 0);
      lia. }
  assert (Hin : 0 <= spec_effective_offset (partition_size_of gpart) (- k)
                <= partition_size_of gpart).
  { unfold spec_effective_offset. destruct (Z.ltb_spec (- k) 0); lia. }
  split.
  - rewrite (read_from_partition_valid w name l st gpart (- k))
      by assumption.
    rewrite (read_from_partition_valid w name l st gpart
               (partition_size_of gpart - k))
      by (try assumption; rewrite <- Heq; assumption).
    rewrite Heq. reflexivity.
  - rewrite (write_to_partition_valid w name l st gpart (- k))
      by assumption.
    rewrite (write_to_partition_valid w name l st gpart
               (partition_size_of gpart - k))
      by (try assumption; rewrite <- Heq; assumption).
    rewrite Heq. reflexivity.
Qed.

(** A negative offset -k with k > partition_size is refused by both
    callbacks before anything reaches the transport. *)
Lemma negative_offset_out_of_range w name l st gpart off n buf out0 :
  stra_to_str name = Some l ->
  gpt_get_partition_by_label l = (st, gpart) ->
  EFI_ERROR st = false ->
  is_s64 off -> off < 0 -> partition_size_of gpart < - off ->
  read_from_partition w name off n buf out0
  = (AVB_IO_RESULT_ERROR_RANGE_OUTSIDE_PARTITION, w, buf, out0)
  /\ write_to_partition w name off n buf
    = (AVB_IO_RESULT_ERROR_RANGE_OUTSIDE_PARTITION, w).
Proof.
  intros Hl Hg Hst Hoff Hneg Hfar.
  pose proof (partition_size_range gpart) as Hsize.
  unfold read_from_partition, write_to_partition. rewrite Hl, Hg, Hst.
  rewrite (normalize_too_far_back _ _ Hsize Hoff Hneg Hfar). auto.
Qed.

(** A non-negative offset is not compared with the partition size.  Past
    the end, the unsigned difference partition_size - offset wraps around,
    the boundary check passes for every length up to the wrapped value,
    and the request goes to the transport as it is. *)
Lemma offset_past_end_unchecked w name l st gpart off n buf out0 :
  stra_to_str name = Some l ->
  gpt_get_partition_by_label l = (st, gpart) ->
  EFI_ERROR st = false ->
  is_s64 off -> is_u64 n ->
  partition_size_of gpart < off ->
  n <= 2 ^ 64 - (off - partition_size_of gpart) ->
  let disk_offset := u64 (starting_lba gpart * BlockSize gpart + off) in
  read_from_partition w name off n buf out0
  = (let '(st', data) :=
       ReadDisk (storage w) (MediaId gpart) disk_offset n buf in
     let w' := World (storage w)
                 (ReadDiskCall (MediaId gpart) disk_offset n st' :: calls w) in
     if EFI_ERROR st' then (AVB_IO_RESULT_ERROR_IO, w', data, 0)
     else (AVB_IO_RESULT_OK, w', data, n))
  /\ write_to_partition w name off n buf
    = (let '(st', disk) :=
         WriteDisk (storage w) (MediaId gpart) disk_offset n buf in
       let w' := World disk
                   (WriteDiskCall (MediaId gpart) disk_offset n buf st'
                    :: calls w) in
       if EFI_ERROR st' then (AVB_IO_RESULT_ERROR_IO, w')
       else (AVB_IO_RESULT_OK, w')).
Proof.
  intros Hl Hg Hst Hoff Hn Hpast Hlen disk_offset.
  pose proof (partition_size_range gpart) as Hsize.
  unfold read_from_partition, write_to_partition. rewrite Hl, Hg, Hst.
  destruct (Z.ltb_spec off 0) as [| _]; [unfold_ints; lia |]. cbv zeta.
  rewrite u64_add_l, u64_add_r. fold disk_offset.
  assert (Hwrap : u64 (partition_size_of gpart - u64 off)
                  = 2 ^ 64 - (off - partition_size_of gpart))
    by (unfold_ints; lia).
  rewrite Hwrap.
  destruct (Z.gtb_spec n (2 ^ 64 - (off - partition_size_of gpart)));
    [lia |].
  split; reflexivity.
Qed.

(** A locator miss in the two I/O callbacks. *)
Lemma io_locator_miss w name l st gpart off n buf out0 :
  stra_to_str name = Some l ->
  gpt_get_partition_by_label l = (st, gpart) ->
  EFI_ERROR st = true ->
  read_from_partition w name off n buf out0
  = (AVB_IO_RESULT_ERROR_NO_SUCH_PARTITION, w, buf, out0)
  /\ write_to_partition w name off n buf
    = (AVB_IO_RESULT_ERROR_NO_SUCH_PARTITION, w).
Proof.
  intros Hl Hg Hst. unfold read_from_partition, write_to_partition.
  rewrite Hl, Hg, Hst. auto.
Qed.

End PartitionIO.

(** ** The trust anchor *)

Lemma byte_val_inj (a b : byte) : byte_val a - byte_val b = 0 -> a = b.
Proof.
  unfold byte_val. intros H.
  assert (Hn : Byte.to_N a = Byte.to_N b) by lia.
  pose proof (Byte.of_to_N a) as Ha. rewrite Hn, Byte.of_to_N in Ha.
  congruence.
Qed.

(** Within both objects, [memcmp] is zero exactly on equal prefixes. *)
Lemma memcmp_zero (n : nat) : forall s1 s2 : list byte,
  (n <= length s1)%nat -> (n <= length s2)%nat ->
  memcmp s1 s2 n = 0 <-> take n s1 = take n s2.
Proof.
  induction n as [| n IH]; intros s1 s2 H1 H2; [cbn; split; reflexivity |].
  destruct s1 as [| a s1], s2 as [| b s2]; simpl in H1, H2; try lia.
  simpl. destruct (Byte.eqb a b) eqn:Hab.
  - apply Byte.byte_dec_bl in Hab as ->.
    rewrite IH by lia. split; [congruence | intros [=]; assumption].
  - apply Byte.eqb_false in Hab. split.
    + intros Hd. apply byte_val_inj in Hd. contradiction.
    + intros [=]. contradiction.
Qed.

Section TrustAnchor.
Context `{P : Platform}.

Lemma validate_on_key key len md mdlen prior :
  len <> 0 -> 0 <= len <= Z.of_nat (length key) ->
  exists trusted : bool,
    validate_vbmeta_public_key (Some key) len md mdlen (Some prior)
    = (AVB_IO_RESULT_OK, Some trusted)
    /\ (trusted = true <-> key_matches key len).
Proof.
  intros Hnz Hlen. unfold validate_vbmeta_public_key, key_matches.
  destruct (Z.eqb_spec len 0) as [| _]; [contradiction |].
  destruct (Z.leb_spec len avb_pk_size) as [Hle | Hgt]; cbn [andb].
  - assert (Hcmp : memcmp avb_pk key (Z.to_nat len) = 0
                   <-> take (Z.to_nat len) key = take (Z.to_nat len) avb_pk).
    { rewrite memcmp_zero by (unfold avb_pk_size in Hle; lia).
      split; congruence. }
    destruct (Z.eqb_spec (memcmp avb_pk key (Z.to_nat len)) 0) as [Hz | Hz].
    + exists true. tauto.
    + exists false. split; [reflexivity |]. split; [discriminate | tauto].
  - exists false. split; [reflexivity |]. split; [discriminate | lia].
Qed.

(** C2.  [validate_vbmeta_public_key] returns IOError exactly when the key
    pointer is NULL or the length is zero, and OK otherwise; on a key it
    reports trusted exactly when the length does not exceed the reference
    key's and the bytes equal the reference key's first bytes, so that the
    reference key itself is trusted and a key that differs from it in one
    byte of the compared prefix is not; the metadata arguments do not
    influence the outcome. *)
Theorem validate_vbmeta_public_key_decides :
  (forall data len md mdlen out,
     fst (validate_vbmeta_public_key data len md mdlen out)
     = AVB_IO_RESULT_ERROR_IO
     <-> data = None \/ len = 0)
  /\ (forall data len md mdlen out,
       ~ (data = None \/ len = 0) ->
       fst (validate_vbmeta_public_key data len md mdlen out)
       = AVB_IO_RESULT_OK)
  /\ (forall key len md mdlen prior,
       len <> 0 -> 0 <= len <= Z.of_nat (length key) ->
       exists trusted : bool,
         validate_vbmeta_public_key (Some key) len md mdlen (Some prior)
         = (AVB_IO_RESULT_OK, Some trusted)
         /\ (trusted = true <-> key_matches key len))
  /\ (forall md mdlen prior,
       avb_pk <> [] ->
       validate_vbmeta_public_key (Some avb_pk) avb_pk_size md mdlen
         (Some prior)
       = (AVB_IO_RESULT_OK, Some true))
  /\ (forall (i : nat) (a b : byte) len md mdlen prior,
       avb_pk !! i = Some a -> b <> a ->
       Z.of_nat i < len <= avb_pk_size ->
       validate_vbmeta_public_key (Some (<[i := b]> avb_pk)) len md mdlen
         (Some prior)
       = (AVB_IO_RESULT_OK, Some false))
  /\ (forall data len md mdlen md' mdlen' out,
       validate_vbmeta_public_key data len md mdlen out
       = validate_vbmeta_public_key data len md' mdlen' out).
Proof.
  split; [| split; [| split; [| split; [| split]]]].
  - intros data len md mdlen out. unfold validate_vbmeta_public_key.
    destruct data as [key |]; [| cbn; tauto].
    destruct (Z.eqb_spec len 0) as [Hz | Hz]; [cbn; tauto |].
    destruct (_ && _); cbn; split; try discriminate;
      intros [? | ?]; congruence.
  - intros data len md mdlen out Hok. unfold validate_vbmeta_public_key.
    destruct data as [key |]; [| tauto].
    destruct (Z.eqb_spec len 0) as [Hz | Hz]; [tauto |].
    destruct (_ && _); reflexivity.
  - apply validate_on_key.
  - intros md mdlen prior Hne.
    assert (Hlen : avb_pk_size <> 0).
    { unfold avb_pk_size. destruct avb_pk; [contradiction | simpl; lia]. }
    destruct (validate_on_key avb_pk avb_pk_size md mdlen prior Hlen)
      as (trusted & -> & Hiff); [unfold avb_pk_size; lia |].
    do 2 f_equal. apply Hiff. unfold key_matches. split; [lia | reflexivity].
  - intros i a b len md mdlen prior Hi Hba Hlen.
    destruct (validate_on_key (<[i := b]> avb_pk) len md mdlen prior)
      as (trusted & -> & Hiff);
      [lia | rewrite length_insert; unfold avb_pk_size in Hlen; lia |].
    do 2 f_equal. destruct trusted; [exfalso | reflexivity].
    destruct Hiff as [Hiff _]. destruct (Hiff eq_refl) as [_ Heq].
    apply (f_equal (fun l : list byte => l !! i)) in Heq.
    rewrite !lookup_take_lt in Heq by lia.
    rewrite list_lookup_insert_eq in Heq by (eapply lookup_lt_Some; eauto).
    congruence.
  - reflexivity.
Qed.

(** C10.  The trust flag is cleared before any check: with a non-NULL
    [out_key_is_trusted], whatever it held before, every return leaves it
    false except the successful match, which leaves it true; the IOError
    return in particular leaves it false. *)
Theorem validate_clears_trust_flag data len md mdlen prior :
  let '(res, out) :=
    validate_vbmeta_public_key data len md mdlen (Some prior) in
  (out = Some false
   \/ (out = Some true /\ res = AVB_IO_RESULT_OK
       /\ exists key, data = Some key /\ len <> 0 /\ len <= avb_pk_size
                      /\ memcmp avb_pk key (Z.to_nat len) = 0))
  /\ (res = AVB_IO_RESULT_ERROR_IO -> out = Some false)
  /\ (forall prior',
        validate_vbmeta_public_key data len md mdlen (Some prior')
        = (res, out)).
Proof.
  unfold validate_vbmeta_public_key.
  destruct data as [key |]; [| auto].
  destruct (Z.eqb_spec len 0) as [Hz | Hz]; [auto |].
  destruct (Z.leb_spec len avb_pk_size) as [Hle | Hgt]; cbn [andb];
    [| split; [auto | split; [discriminate | reflexivity]]].
  destruct (Z.eqb_spec (memcmp avb_pk key (Z.to_nat len)) 0) as [Hcmp | Hcmp];
    (split; [| split; [discriminate | reflexivity]]).
  - right. eauto 10.
  - left. reflexivity.
Qed.

End TrustAnchor.

(** ** The rollback index stub *)

Section Rollback.
Context {Disk : Type}.

Lemma write_rollback_history_inert (history : list (Z * Z)) :
  forall w : world Disk,
    snd (write_rollback_history w history) = w
    /\ Forall (fun res => res = AVB_IO_RESULT_OK)
             (fst (write_rollback_history w history)).
Proof.
  induction history as [| [slot value] rest IH]; intros w; cbn.
  - split; [reflexivity | constructor].
  - destruct (IH w) as [Hw Hres].
    destruct (write_rollback_history w rest) as [results w'].
    cbn in *. split; [assumption | constructor; [reflexivity | assumption]].
Qed.

(** C9.  Whatever [write_rollback_index] calls came before, each of them
    returned OK and left the state as it was, and [read_rollback_index]
    returns OK and stores 0 for every slot; a further write of any slot and
    value returns OK and changes nothing. *)
Theorem rollback_index_is_a_stub
    (w : world Disk) (history : list (Z * Z)) (slot value prior : Z) :
  let '(results, w') := write_rollback_history w history in
  Forall (fun res => res = AVB_IO_RESULT_OK) results
  /\ w' = w
  /\ read_rollback_index w' slot (Some prior)
     = (AVB_IO_RESULT_OK, w', Some 0)
  /\ write_rollback_index w' slot value = (AVB_IO_RESULT_OK, w').
Proof.
  destruct (write_rollback_history_inert history w) as [Hw Hres].
  destruct (write_rollback_history w history) as [results w'].
  cbn in Hw, Hres. subst w'. repeat split. assumption.
Qed.

End Rollback.

(** ** The partition identifier *)

Lemma hex_digits_high (value : byte) :
  nth (N.to_nat (N.shiftr (Byte.to_N value) 4)) hex_digits Ascii.zero
  = hex_digit_lower (Byte.to_N value / 16).
Proof. destruct value; reflexivity. Qed.

Lemma hex_digits_low (value : byte) :
  nth (N.to_nat (N.land (Byte.to_N value) 15)) hex_digits Ascii.zero
  = hex_digit_lower (Byte.to_N value mod 16).
Proof. destruct value; reflexivity. Qed.

(** [set_hex] stores the two lowercase digits of the byte, high digit
    first. *)
Lemma set_hex_digits (buf : list ascii) (pos : nat) (value : byte) :
  set_hex buf pos value
  = <[S pos := hex_digit_lower (Byte.to_N value mod 16)]>
      (<[pos := hex_digit_lower (Byte.to_N value / 16)]> buf).
Proof. unfold set_hex. rewrite hex_digits_high, hex_digits_low. reflexivity. Qed.

Lemma canonical_guid_length (raw : list byte) :
  length (canonical_guid raw) = 36%nat.
Proof. reflexivity. Qed.

Section Identifier.
Context `{P : Platform}.

Lemma guid_locator_miss name l st gpart guid_buf guid_buf_size :
  stra_to_str name = Some l ->
  gpt_get_partition_by_label l = (st, gpart) ->
  EFI_ERROR st = true ->
  get_unique_guid_for_partition name guid_buf guid_buf_size
  = (AVB_IO_RESULT_ERROR_IO, guid_buf).
Proof.
  intros Hl Hg Hst. unfold get_unique_guid_for_partition.
  rewrite Hl, Hg, Hst. reflexivity.
Qed.

(** C7.  On a resolved partition, a buffer size below 37 makes
    [get_unique_guid_for_partition] fail with IOError and leave the buffer
    exactly as it was. *)
Theorem guid_buffer_too_small name l st gpart guid_buf guid_buf_size :
  stra_to_str name = Some l ->
  gpt_get_partition_by_label l = (st, gpart) ->
  EFI_ERROR st = false ->
  guid_buf_size < 37 ->
  get_unique_guid_for_partition name guid_buf guid_buf_size
  = (AVB_IO_RESULT_ERROR_IO, guid_buf).
Proof.
  intros Hl Hg Hst Hsize. unfold get_unique_guid_for_partition.
  rewrite Hl, Hg, Hst.
  destruct (Z.ltb_spec guid_buf_size 37); [reflexivity | lia].
Qed.

(** C6.  On a resolved partition with a 16-byte identifier and a buffer of
    at least 37 characters, [get_unique_guid_for_partition] returns OK and
    the buffer holds the canonical rendering (36 characters: the bytes
    [3,2,1,0], [5,4], [7,6], [8,9], [10..15] as lowercase hex pairs in five
    hyphen-separated groups), then NUL at index 36, then what it held
    before; the bytes 33 22 11 00 55 44 77 66 88 99 AA BB CC DD EE FF give
    00112233-4455-6677-8899-aabbccddeeff. *)
Theorem guid_is_canonical name l st gpart guid_buf guid_buf_size :
  stra_to_str name = Some l ->
  gpt_get_partition_by_label l = (st, gpart) ->
  EFI_ERROR st = false ->
  length (unique gpart) = 16%nat ->
  37 <= guid_buf_size <= Z.of_nat (length guid_buf) ->
  get_unique_guid_for_partition name guid_buf guid_buf_size
  = (AVB_IO_RESULT_OK,
     canonical_guid (unique gpart) ++ Ascii.zero :: drop 37 guid_buf)
  /\ length (canonical_guid (unique gpart)) = 36%nat
  /\ snd (get_unique_guid_for_partition name guid_buf guid_buf_size)
       !! 36%nat = Some Ascii.zero
  /\ (unique gpart
      = [x33; x22; x11; x00; x55; x44; x77; x66;
         x88; x99; xaa; xbb; xcc; xdd; xee; xff] ->
      get_unique_guid_for_partition name guid_buf guid_buf_size
      = (AVB_IO_RESULT_OK,
         list_ascii_of_string "00112233-4455-6677-8899-aabbccddeeff"
           ++ Ascii.zero :: drop 37 guid_buf)).
Proof.
  intros Hl Hg Hst Hraw Hsize.
  assert (Hrun : get_unique_guid_for_partition name guid_buf guid_buf_size
                 = (AVB_IO_RESULT_OK,
                    canonical_guid (unique gpart)
                      ++ Ascii.zero :: drop 37 guid_buf)).
  { unfold get_unique_guid_for_partition. rewrite Hl, Hg, Hst.
    destruct (Z.ltb_spec guid_buf_size 37) as [| _]; [lia |].
    cbv zeta. rewrite !set_hex_digits.
    destruct (unique gpart) as [| b0 raw]; [discriminate |].
    do 15 (destruct raw as [| ? raw]; [discriminate |]).
    destruct raw; [| discriminate].
    assert (Hbuf : (37 <= length guid_buf)%nat) by lia. clear Hsize.
    do 37 (destruct guid_buf as [| ? guid_buf]; [simpl in Hbuf; lia |]).
    reflexivity. }
  split; [exact Hrun |]. split; [reflexivity |]. split.
  - rewrite Hrun. cbn [snd].
    rewrite lookup_app_r by (rewrite canonical_guid_length; lia).
    rewrite canonical_guid_length. reflexivity.
  - intros Hex. rewrite Hrun, Hex. reflexivity.
Qed.

End Identifier.

(** ** The callbacks on the concrete machine *)

Section OnTheTestBed.
Import TestBed.

Lemma boot_partition_size : partition_size_of boot = 512.
Proof. reflexivity. Qed.

(** C1.  The range invariant fails for a positive offset: on the 512-byte
    partition, a read at offset 1024 is not refused.  The effective offset
    stays 1024, outside [0, 512], and the transport is asked for 16 bytes
    at disk offset 1536, in a block that does not belong to the
    partition. *)
Theorem read_offset_past_end_reaches_transport :
  spec_effective_offset (partition_size_of boot) 1024 = 1024
  /\ partition_size_of boot < 1024
  /\ read_from_partition blank "boot" 1024 16 (replicate 16 xff) 0
     = (AVB_IO_RESULT_OK,
        World (storage blank) [ReadDiskCall 0 1536 16 EFI_SUCCESS],
        replicate 16 x00, 16).
Proof. vm_compute. repeat split. Qed.

(** C3.  A write whose offset plus length exceeds the partition size is
    not always refused: on the 512-byte partition, 4 bytes written at
    offset 1024 return OK, reach the transport at disk offset 1536 and
    change the disk there. *)
Theorem write_past_end_reaches_transport :
  let data := [x01; x02; x03; x04] in
  let '(res, w') := write_to_partition blank "boot" 1024 4 data in
  partition_size_of boot < spec_effective_offset (partition_size_of boot) 1024 + 4
  /\ res = AVB_IO_RESULT_OK
  /\ calls w' = [WriteDiskCall 0 1536 4 data EFI_SUCCESS]
  /\ take 4 (drop 1536 (storage blank)) = [x00; x00; x00; x00]
  /\ take 4 (drop 1536 (storage w')) = data.
Proof. vm_compute. repeat split. Qed.

(** C5.  A locator miss is NoSuchPartition in the two I/O callbacks and
    IOError in [get_unique_guid_for_partition]: for a name the partition
    table does not hold, with a buffer of sufficient size. *)
Theorem guid_locator_miss_is_io_error :
  EFI_ERROR (fst (gpt_get_partition_by_label "nope"%string)) = true
  /\ fst (read_from_partition blank "nope" 0 0 [] 0)
     = (AVB_IO_RESULT_ERROR_NO_SUCH_PARTITION, blank, [])
  /\ write_to_partition blank "nope" 0 0 []
     = (AVB_IO_RESULT_ERROR_NO_SUCH_PARTITION, blank)
  /\ get_unique_guid_for_partition "nope" (replicate 37 "x"%char) 37
     = (AVB_IO_RESULT_ERROR_IO, replicate 37 "x"%char).
Proof. vm_compute. repeat split. Qed.

(** A read of 100 bytes at offset 1000 of the two-block partition: 24
    bytes are asked for and returned. *)
Lemma read_from_partition_clamps_witness :
  (0 <= spec_effective_offset
          ((ending_lba system - starting_lba system + 1) * BlockSize system)
          1000
     <= (ending_lba system - starting_lba system + 1) * BlockSize system)
  /\ read_from_partition (P := two_block_platform) blank "system" 1000 100
       (replicate 100 xff) 0
     = (AVB_IO_RESULT_OK,
        World (storage blank) [ReadDiskCall 0 2024 24 EFI_SUCCESS],
        replicate 24 x00 ++ replicate 76 xff, 24).
Proof.
  split; [vm_compute; split; discriminate |].
  pose proof (read_from_partition_clamps (P := two_block_platform) blank
                "system" "system"%string EFI_SUCCESS system 1000 100
                (replicate 100 xff) 0 eq_refl eq_refl eq_refl) as H.
  vm_compute in H. vm_compute.
  destruct H as (Hcall & Hok & _);
    try (repeat split; first [reflexivity | discriminate]).
Defined.

(** C4 as the design document words it does not hold when the transport
    fails: on the two-block partition beyond the end of the disk, a read of
    16 bytes at offset 0 has its normalised offset in [0, partition_size]
    and offset + length within the size, and the byte count handed back is
    0, not the requested 16. *)
Lemma read_from_partition_clamps_counterexample :
  let size := (ending_lba ghost - starting_lba ghost + 1) * BlockSize ghost in
  let eff := spec_effective_offset size 0 in
  let count := snd (read_from_partition blank "ghost" 0 16
                      (replicate 16 xff) 99) in
  gpt_get_partition_by_label "ghost"%string = (EFI_SUCCESS, ghost)
  /\ 0 <= eff <= size
  /\ ~ ((size < eff + 16 -> count = size - eff)
        /\ (eff + 16 <= size -> count = 16)).
Proof.
  vm_compute. split; [reflexivity |]. split; [split; discriminate |].
  intros [_ Hfull]. assert (H : 0 = 16) by (apply Hfull; discriminate).
  discriminate H.
Qed.

Lemma read_transport_failure_zeroes_count_witness :
  read_from_partition blank "ghost" 0 16 (replicate 16 xff) 99
  = (AVB_IO_RESULT_ERROR_IO,
     World (storage blank) [ReadDiskCall 0 4096 16 EFI_DEVICE_ERROR],
     replicate 16 xff, 0)
  /\ EFI_DEVICE_ERROR
     = fst (ReadDisk (storage blank) 0 4096 16 (replicate 16 xff))
  /\ AVB_IO_RESULT_ERROR_IO = AVB_IO_RESULT_ERROR_IO /\ 0 = 0.
Proof.
  split; [reflexivity |].
  exact (read_transport_failure_zeroes_count (P := platform) blank
           "ghost" 0 16
           (replicate 16 xff) 99 AVB_IO_RESULT_ERROR_IO
           (World (storage blank) [ReadDiskCall 0 4096 16 EFI_DEVICE_ERROR])
           (replicate 16 xff) 0 0 4096 16 EFI_DEVICE_ERROR
           eq_refl eq_refl eq_refl).
Defined.

Lemma validate_vbmeta_public_key_decides_witness :
  validate_vbmeta_public_key (Some [x0a; x0b; x0c; x0d]) 4 None 0 (Some false)
  = (AVB_IO_RESULT_OK, Some true)
  /\ validate_vbmeta_public_key (Some [x0a; xff; x0c; x0d]) 3 None 0
       (Some true)
     = (AVB_IO_RESULT_OK, Some false).
Proof.
  destruct (validate_vbmeta_public_key_decides (P := platform))
    as (_ & _ & _ & Hexact & Hmutated & _).
  split.
  - apply (Hexact None 0 false). discriminate.
  - apply (Hmutated 1%nat x0b xff 3 None 0 true);
      [reflexivity | discriminate
      | vm_compute; split; [reflexivity | discriminate]].
Defined.

Lemma guid_buffer_too_small_witness :
  get_unique_guid_for_partition "boot" (replicate 36 "x"%char) 36
  = (AVB_IO_RESULT_ERROR_IO, replicate 36 "x"%char).
Proof.
  apply (guid_buffer_too_small (P := platform) "boot" "boot"%string
           EFI_SUCCESS boot);
    reflexivity.
Defined.

Lemma guid_is_canonical_witness :
  get_unique_guid_for_partition "boot" (replicate 40 "x"%char) 40
  = (AVB_IO_RESULT_OK,
     list_ascii_of_string "00112233-4455-6677-8899-aabbccddeeff"
       ++ Ascii.zero :: replicate 3 "x"%char).
Proof.
  apply (guid_is_canonical (P := platform) "boot" "boot"%string
           EFI_SUCCESS boot
           (replicate 40 "x"%char) 40);
    first [reflexivity | vm_compute; split; discriminate].
Defined.

End OnTheTestBed.

(** * Further properties of the callbacks *)

(** ** Every outcome of the two I/O callbacks *)

Section Outcomes.
Context `{P : Platform} {Disk : Type} `{D : !EFI_DISK_IO Disk}.
Implicit Types (w : world Disk) (gpart : gpt_partition_interface).

(** X1.  [read_from_partition] either fails with OOM, NoSuchPartition or
    RangeOutsidePartition and then has touched nothing (no transport call,
    buffer and byte count as they were), or it has issued exactly one
    [ReadDisk], for at most [num_bytes] bytes, and returns OK with the
    length it asked for or IOError with 0 according to the status of that
    call. *)
Theorem read_from_partition_outcome w name off n buf out0 :
  0 <= n ->
  let '(res, w', buf', count) := read_from_partition w name off n buf out0 in
  (w' = w /\ buf' = buf /\ count = out0
   /\ (res = AVB_IO_RESULT_ERROR_OOM
       \/ res = AVB_IO_RESULT_ERROR_NO_SUCH_PARTITION
       \/ res = AVB_IO_RESULT_ERROR_RANGE_OUTSIDE_PARTITION))
  \/ (exists media o len st,
        w' = World (storage w) (ReadDiskCall media o len st :: calls w)
        /\ ReadDisk (storage w) media o len buf = (st, buf')
        /\ 0 <= len <= n
        /\ (if EFI_ERROR st
            then res = AVB_IO_RESULT_ERROR_IO /\ count = 0
            else res = AVB_IO_RESULT_OK /\ count = len)).
Proof.
  intros Hn. unfold read_from_partition.
  destruct (stra_to_str name) as [l |]; [| left; auto 6].
  destruct (gpt_get_partition_by_label l) as [st gpart].
  destruct (EFI_ERROR st); [left; auto 6 |].
  cbv zeta.
  match goal with
  | |- context [match ?norm with Some _ => _ | None => _ end] =>
    destruct norm as [eff |]
  end; [| left; auto 6].
  set (len := if n >? _ then _ else n).
  assert (Hlen : 0 <= len <= n).
  { subst len.
    pose proof (u64_range (partition_size_of gpart - u64 eff)) as Hr.
    destruct (Z.gtb_spec n (u64 (partition_size_of gpart - u64 eff)));
      unfold is_u64 in Hr; lia. }
  destruct (ReadDisk (storage w) (MediaId gpart) _ len buf)
    as [efi_ret data] eqn:Hio.
  destruct (EFI_ERROR efi_ret) eqn:Herr; right;
    do 4 eexists; (split; [reflexivity |]); (split; [exact Hio |]);
    (split; [exact Hlen |]); rewrite Herr; auto.
Qed.

(** X2.  [write_to_partition] either fails with OOM, NoSuchPartition or
    RangeOutsidePartition and then nothing reached the transport, or it has
    issued exactly one [WriteDisk] carrying the caller's buffer and the whole
    [num_bytes] (never a shortened length), and returns OK or IOError
    according to the status of that call. *)
Theorem write_to_partition_outcome w name off n buf :
  let '(res, w') := write_to_partition w name off n buf in
  (w' = w
   /\ (res = AVB_IO_RESULT_ERROR_OOM
       \/ res = AVB_IO_RESULT_ERROR_NO_SUCH_PARTITION
       \/ res = AVB_IO_RESULT_ERROR_RANGE_OUTSIDE_PARTITION))
  \/ (exists media o st disk,
        WriteDisk (storage w) media o n buf = (st, disk)
        /\ w' = World disk (WriteDiskCall media o n buf st :: calls w)
        /\ (if EFI_ERROR st
            then res = AVB_IO_RESULT_ERROR_IO
            else res = AVB_IO_RESULT_OK)).
Proof.
  unfold write_to_partition.
  destruct (stra_to_str name) as [l |]; [| left; auto].
  destruct (gpt_get_partition_by_label l) as [st gpart].
  destruct (EFI_ERROR st); [left; auto |].
  cbv zeta.
  match goal with
  | |- context [match ?norm with Some _ => _ | None => _ end] =>
    destruct norm as [eff |]
  end; [| left; auto].
  destruct (n >? _); [left; auto |].
  destruct (WriteDisk (storage w) (MediaId gpart) _ n buf)
    as [efi_ret disk] eqn:Hio.
  destruct (EFI_ERROR efi_ret) eqn:Herr; right;
    do 4 eexists; (split; [exact Hio |]); (split; [reflexivity |]);
    rewrite Herr; reflexivity.
Qed.

(** X3.  On a resolved partition, [read_from_partition] returns
    RangeOutsidePartition exactly for a negative offset that reaches back
    past the start of the partition; no non-negative offset and no length
    makes a read fail with that result. *)
Theorem read_range_error_iff w name l st gpart off n buf out0 :
  stra_to_str name = Some l ->
  gpt_get_partition_by_label l = (st, gpart) ->
  EFI_ERROR st = false ->
  is_s64 off ->
  fst (fst (fst (read_from_partition w name off n buf out0)))
  = AVB_IO_RESULT_ERROR_RANGE_OUTSIDE_PARTITION
  <-> off < 0 /\ partition_size_of gpart < - off.
Proof.
  intros Hl Hg Hst Hoff.
  pose proof (partition_size_range gpart) as Hsize.
  unfold read_from_partition. rewrite Hl, Hg, Hst. cbv zeta.
  destruct (Z.ltb_spec off 0) as [Hneg | Hpos].
  - assert (Hk : u64 (s64 (- off)) = - off) by (unfold_ints; lia).
    rewrite Hk.
    destruct (Z.gtb_spec (- off) (partition_size_of gpart)) as [Hfar | Hnear].
    + cbn. split; [intros _; lia | reflexivity].
    + destruct (ReadDisk _ _ _ _ _) as [efi_ret data].
      destruct (EFI_ERROR efi_ret); cbn; split; (discriminate || lia).
  - destruct (ReadDisk _ _ _ _ _) as [efi_ret data].
    destruct (EFI_ERROR efi_ret); cbn; split; (discriminate || lia).
Qed.

(** X4.  On a resolved partition and a normalised offset in
    [0, partition_size], [write_to_partition] returns RangeOutsidePartition
    exactly when offset + length exceeds the partition size, and then the
    disk and the call log are as before. *)
Theorem write_in_range_refused_iff w name l st gpart off n buf :
  stra_to_str name = Some l ->
  gpt_get_partition_by_label l = (st, gpart) ->
  EFI_ERROR st = false ->
  is_s64 off -> is_u64 n ->
  let size := partition_size_of gpart in
  let eff := spec_effective_offset size off in
  0 <= eff <= size ->
  (fst (write_to_partition w name off n buf)
   = AVB_IO_RESULT_ERROR_RANGE_OUTSIDE_PARTITION
   <-> size < eff + n)
  /\ (size < eff + n ->
      write_to_partition w name off n buf
      = (AVB_IO_RESULT_ERROR_RANGE_OUTSIDE_PARTITION, w)).
Proof.
  intros Hl Hg Hst Hoff Hn size eff Heff.
  rewrite (write_to_partition_valid w name l st gpart off n buf
             Hl Hg Hst Hoff Hn Heff).
  cbv zeta. fold size eff.
  destruct (Z.gtb_spec (eff + n) size) as [Hpast | Hfits].
  - split; [split; [intros _; lia | reflexivity] | reflexivity].
  - destruct (WriteDisk _ _ _ _ _) as [efi_ret disk].
    split; [| lia].
    destruct (EFI_ERROR efi_ret); cbn; split; (discriminate || lia).
Qed.

End Outcomes.

(** ** Where valid requests land *)

Lemma no_self_cons {A : Type} (x : A) (t : list A) : t <> x :: t.
Proof. intros H. apply (f_equal length) in H. simpl in H. lia. Qed.

Section ValidRequests.
Context `{P : Platform} {Disk : Type} `{D : !EFI_DISK_IO Disk}.
Implicit Types (w : world Disk) (gpart : gpt_partition_interface).

(** X5.  On a well-formed handle whose last byte has a 64-bit address, a
    request with a normalised offset in [0, partition_size] never leaves the
    partition: the byte range handed to [ReadDisk] or [WriteDisk] lies
    between the first byte of the starting block and the byte after the
    ending block. *)
Theorem valid_requests_stay_inside_partition
    w name l st gpart off n buf out0 :
  stra_to_str name = Some l ->
  gpt_get_partition_by_label l = (st, gpart) ->
  EFI_ERROR st = false ->
  gpart_wf gpart ->
  starting_lba gpart <= ending_lba gpart ->
  (ending_lba gpart + 1) * BlockSize gpart < 2 ^ 64 ->
  is_s64 off -> is_u64 n ->
  0 <= spec_effective_offset (partition_size_of gpart) off
    <= partition_size_of gpart ->
  let first := starting_lba gpart * BlockSize gpart in
  let past := (ending_lba gpart + 1) * BlockSize gpart in
  (forall media o len status,
     calls (snd (fst (fst (read_from_partition w name off n buf out0))))
     = ReadDiskCall media o len status :: calls w ->
     first <= o /\ o + len <= past)
  /\ (forall media o len data status,
       calls (snd (write_to_partition w name off n buf))
       = WriteDiskCall media o len data status :: calls w ->
       first <= o /\ o + len <= past).
Proof.
  intros Hl Hg Hst Hwf Horder Hfit Hoff Hn Heff first past.
  assert (Hfirst : 0 <= first).
  { subst first. destruct Hwf as (? & ? & ? & ?). unfold_ints. nia. }
  assert (Hsize : partition_size_of gpart = past - first).
  { rewrite partition_size_exact; [subst first past; ring | assumption ..|].
    destruct Hwf as (? & ? & ? & ?). unfold_ints. nia. }
  rewrite Hsize in Heff.
  set (eff := spec_effective_offset (past - first) off) in *.
  assert (Ho : u64 (first + eff) = first + eff)
    by (apply u64_small; unfold_ints; lia).
  split.
  - intros media o len status.
    rewrite (read_from_partition_valid w name l st gpart off n buf out0)
      by (try assumption; rewrite Hsize; assumption).
    cbv zeta. rewrite Hsize. fold first eff. rewrite Ho.
    unfold spec_read_length.
    destruct (ReadDisk _ _ _ _ _) as [efi_ret data'].
    destruct (EFI_ERROR efi_ret); cbn [fst snd calls];
      intros [= <- <- <- <-];
      destruct (Z.gtb_spec (eff + n) (past - first)); unfold_ints; lia.
  - intros media o len data status.
    rewrite (write_to_partition_valid w name l st gpart off n buf)
      by (try assumption; rewrite Hsize; assumption).
    cbv zeta. rewrite Hsize. fold first eff. rewrite Ho.
    destruct (Z.gtb_spec (eff + n) (past - first)).
    + cbn [snd]. intros Hcall. now apply no_self_cons in Hcall.
    + destruct (WriteDisk _ _ _ _ _) as [efi_ret disk].
      destruct (EFI_ERROR efi_ret); cbn [fst snd calls];
        intros [= <- <- <- <- <-]; unfold_ints; lia.
Qed.

(** X6.  A read at the negative offset -k for at least k bytes asks the
    transport for exactly the last k bytes of the partition and, when the
    transport succeeds, returns OK with the count k. *)
Theorem read_tail_of_partition w name l st gpart k n buf out0 :
  stra_to_str name = Some l ->
  gpt_get_partition_by_label l = (st, gpart) ->
  EFI_ERROR st = false ->
  0 < k <= partition_size_of gpart ->
  is_s64 (- k) -> is_u64 n -> k <= n ->
  let disk_offset :=
    u64 (starting_lba gpart * BlockSize gpart
         + (partition_size_of gpart - k)) in
  let '(status, data) :=
    ReadDisk (storage w) (MediaId gpart) disk_offset k buf in
  read_from_partition w name (- k) n buf out0
  = (if EFI_ERROR status then AVB_IO_RESULT_ERROR_IO else AVB_IO_RESULT_OK,
     World (storage w)
       (ReadDiskCall (MediaId gpart) disk_offset k status :: calls w),
     data,
     if EFI_ERROR status then 0 else k).
Proof.
  intros Hl Hg Hst Hk Hneg Hn Hkn disk_offset.
  assert (Heff : spec_effective_offset (partition_size_of gpart) (- k)
                 = partition_size_of gpart - k).
  { unfold spec_effective_offset. destruct (Z.ltb_spec (- k) 0); lia. }
  rewrite (read_from_partition_valid w name l st gpart (- k) n buf out0)
    by (try assumption; rewrite Heff; lia).
  cbv zeta. rewrite Heff. fold disk_offset.
  assert (Hlen : spec_read_length (partition_size_of gpart)
                   (partition_size_of gpart - k) n = k).
  { unfold spec_read_length.
    destruct (Z.gtb_spec (partition_size_of gpart - k + n)
                (partition_size_of gpart)); lia. }
  rewrite Hlen.
  destruct (ReadDisk _ _ _ _ _) as [status data].
  destruct (EFI_ERROR status); reflexivity.
Qed.

(** X7.  At the offset equal to the partition size, a read of any length
    asks the transport for zero bytes and hands back the count 0, and a
    write of any positive length is refused with RangeOutsidePartition
    before it reaches the transport. *)
Theorem at_partition_end w name l st gpart n buf out0 :
  stra_to_str name = Some l ->
  gpt_get_partition_by_label l = (st, gpart) ->
  EFI_ERROR st = false ->
  is_s64 (partition_size_of gpart) -> is_u64 n ->
  let size := partition_size_of gpart in
  let '(res, w', _, count) := read_from_partition w name size n buf out0 in
  count = 0
  /\ (exists status,
       calls w'
       = ReadDiskCall (MediaId gpart)
           (u64 (starting_lba gpart * BlockSize gpart + size)) 0 status
         :: calls w)
  /\ (0 < n ->
      write_to_partition w name size n buf
      = (AVB_IO_RESULT_ERROR_RANGE_OUTSIDE_PARTITION, w)).
Proof.
  intros Hl Hg Hst Hsz Hn size.
  pose proof (partition_size_range gpart) as Hrange. fold size in Hrange, Hsz.
  assert (Heff : spec_effective_offset size size = size).
  { unfold spec_effective_offset. destruct (Z.ltb_spec size 0);
      unfold_ints; lia. }
  assert (Hin : 0 <= spec_effective_offset size size <= size)
    by (rewrite Heff; unfold_ints; lia).
  rewrite (read_from_partition_valid w name l st gpart size n buf out0)
    by assumption.
  rewrite (write_to_partition_valid w name l st gpart size n buf)
    by assumption.
  cbv zeta. fold size. rewrite Heff.
  assert (Hlen : spec_read_length size size n = 0).
  { unfold spec_read_length. destruct (Z.gtb_spec (size + n) size);
      unfold_ints; lia. }
  rewrite Hlen.
  assert (Hwrite : 0 < n -> (size + n >? size) = true)
    by (intros; destruct (Z.gtb_spec (size + n) size); [reflexivity | lia]).
  destruct (ReadDisk _ _ _ _ _) as [status data].
  destruct (EFI_ERROR status); cbn [calls];
    (split; [reflexivity |]); (split; [eexists; reflexivity |]);
    intros Hpos; rewrite (Hwrite Hpos); reflexivity.
Qed.

(** X8.  A zero-length request at a normalised offset in
    [0, partition_size] is never refused for its range: both callbacks pass
    it to the transport with length 0, the read hands back the count 0, and
    the write returns OK or IOError as the transport decides. *)
Theorem zero_length_requests w name l st gpart off buf out0 :
  stra_to_str name = Some l ->
  gpt_get_partition_by_label l = (st, gpart) ->
  EFI_ERROR st = false ->
  is_s64 off ->
  let size := partition_size_of gpart in
  let eff := spec_effective_offset size off in
  0 <= eff <= size ->
  let disk_offset := u64 (starting_lba gpart * BlockSize gpart + eff) in
  (exists status,
     calls (snd (fst (fst (read_from_partition w name off 0 buf out0))))
     = ReadDiskCall (MediaId gpart) disk_offset 0 status :: calls w)
  /\ snd (read_from_partition w name off 0 buf out0) = 0
  /\ (let '(status, disk) :=
        WriteDisk (storage w) (MediaId gpart) disk_offset 0 buf in
      write_to_partition w name off 0 buf
      = (if EFI_ERROR status then AVB_IO_RESULT_ERROR_IO
         else AVB_IO_RESULT_OK,
         World disk
           (WriteDiskCall (MediaId gpart) disk_offset 0 buf status
            :: calls w))).
Proof.
  intros Hl Hg Hst Hoff size eff Heff disk_offset.
  assert (Hzero : is_u64 0) by (unfold_ints; lia).
  rewrite (read_from_partition_valid w name l st gpart off 0 buf out0)
    by assumption.
  rewrite (write_to_partition_valid w name l st gpart off 0 buf)
    by assumption.
  cbv zeta. fold size eff disk_offset.
  assert (Hlen : spec_read_length size eff 0 = 0).
  { unfold spec_read_length. destruct (Z.gtb_spec (eff + 0) size); lia. }
  rewrite Hlen.
  destruct (Z.gtb_spec (eff + 0) size) as [| _]; [lia |].
  destruct (ReadDisk _ _ _ _ _) as [rstatus data].
  destruct (WriteDisk _ _ _ _ _) as [wstatus disk].
  split; [| split].
  - destruct (EFI_ERROR rstatus); eexists; reflexivity.
  - destruct (EFI_ERROR rstatus); reflexivity.
  - destruct (EFI_ERROR wstatus); reflexivity.
Qed.

(** X9.  On a disk that keeps what was written to it, bytes that
    [write_to_partition] wrote with result OK are what [read_from_partition]
    returns for the same length at the same place, whether the place is
    named by a non-negative offset or by the negative offset of the same
    byte: the read returns OK, the full count, and the written bytes at the
    front of the buffer. *)
Theorem write_then_read_returns_data
    w w1 name l st gpart off off' n data buf out0 :
  read_after_write Disk ->
  stra_to_str name = Some l ->
  gpt_get_partition_by_label l = (st, gpart) ->
  EFI_ERROR st = false ->
  is_s64 off -> is_s64 off' -> is_u64 n ->
  n <= Z.of_nat (length data) ->
  let size := partition_size_of gpart in
  0 <= spec_effective_offset size off <= size ->
  spec_effective_offset size off' = spec_effective_offset size off ->
  write_to_partition w name off n data = (AVB_IO_RESULT_OK, w1) ->
  exists call,
    read_from_partition w1 name off' n buf out0
    = (AVB_IO_RESULT_OK, World (storage w1) (call :: calls w1),
       take (Z.to_nat n) data ++ drop (Z.to_nat n) buf, n).
Proof.
  intros Hlaw Hl Hg Hst Hoff Hoff' Hn Hdata size Heff Hsame Hwrite.
  rewrite (write_to_partition_valid w name l st gpart off n data)
    in Hwrite by assumption.
  cbv zeta in Hwrite. fold size in Hwrite.
  rewrite (read_from_partition_valid w1 name l st gpart off' n buf out0)
    by (try assumption; fold size; rewrite Hsame; assumption).
  cbv zeta. fold size. rewrite Hsame.
  set (eff := spec_effective_offset size off) in *.
  destruct (Z.gtb_spec (eff + n) size) as [| Hfits]; [discriminate |].
  assert (Hlen : spec_read_length size eff n = n).
  { unfold spec_read_length. destruct (Z.gtb_spec (eff + n) size); lia. }
  rewrite Hlen.
  set (o := u64 (starting_lba gpart * BlockSize gpart + eff)) in *.
  destruct (WriteDisk (storage w) (MediaId gpart) o n data)
    as [status disk] eqn:Hio.
  destruct status as [| code]; cbn [EFI_ERROR] in Hwrite; [| discriminate].
  injection Hwrite as <-. cbn [storage calls].
  rewrite (Hlaw (storage w) disk (MediaId gpart) o n data buf);
    [| pose proof (u64_range (starting_lba gpart * BlockSize gpart + eff));
       unfold_ints; lia
     | unfold_ints; lia | exact Hio].
  cbn [EFI_ERROR]. eexists. reflexivity.
Qed.

End ValidRequests.

(** ** More on the trust anchor *)

Section TrustAnchorPrefix.
Context `{P : Platform}.

(** X10.  The comparison covers [public_key_length] bytes and nothing else:
    a presented key whose first bytes are the first [public_key_length]
    bytes of the reference key is trusted, however short that length is and
    whatever follows in the buffer. *)
Theorem validate_trusts_any_prefix len rest md mdlen prior :
  0 < len <= avb_pk_size ->
  validate_vbmeta_public_key
    (Some (take (Z.to_nat len) avb_pk ++ rest)) len md mdlen (Some prior)
  = (AVB_IO_RESULT_OK, Some true).
Proof.
  intros Hlen. unfold avb_pk_size in Hlen.
  assert (Htake : length (take (Z.to_nat len) avb_pk) = Z.to_nat len)
    by (rewrite length_take; lia).
  destruct (validate_on_key (take (Z.to_nat len) avb_pk ++ rest)
              len md mdlen prior) as (trusted & -> & Hiff);
    [lia | rewrite length_app, Htake; lia |].
  do 2 f_equal. apply Hiff. split; [unfold avb_pk_size; lia |].
  apply take_app_length'. symmetry. exact Htake.
Qed.

(** X11.  A NULL [out_key_is_trusted] is tolerated: nothing is stored, and
    the result code is the one a call with a flag to fill returns. *)
Theorem validate_tolerates_null_out data len md mdlen prior :
  validate_vbmeta_public_key data len md mdlen None
  = (fst (validate_vbmeta_public_key data len md mdlen (Some prior)), None).
Proof.
  unfold validate_vbmeta_public_key.
  destruct data as [key |]; [| reflexivity].
  destruct (len =? 0); [reflexivity |].
  destruct (_ && _); reflexivity.
Qed.

End TrustAnchorPrefix.

(** ** More on the partition identifier *)

Lemma hex_value_of_digits (value : byte) :
  hex_value (hex_digit_lower (Byte.to_N value / 16)) = (Byte.to_N value / 16)%N
  /\ hex_value (hex_digit_lower (Byte.to_N value mod 16))
     = (Byte.to_N value mod 16)%N.
Proof. destruct value; split; reflexivity. Qed.

Lemma digits_are_lower_hex (value : byte) :
  is_lower_hex (hex_digit_lower (Byte.to_N value / 16)) = true
  /\ is_lower_hex (hex_digit_lower (Byte.to_N value mod 16)) = true.
Proof. destruct value; split; reflexivity. Qed.

Lemma lower_hex_not_nul (c : ascii) :
  is_lower_hex c = true \/ c = "-"%char -> c <> Ascii.zero.
Proof.
  intros [H | Hc] Hz; rewrite Hz in *; [vm_compute in H |]; discriminate.
Qed.

(** The two digits determine the byte. *)
Lemma hex_byte_inj (a b : byte) :
  hex_digit_lower (Byte.to_N a / 16) = hex_digit_lower (Byte.to_N b / 16) ->
  hex_digit_lower (Byte.to_N a mod 16) = hex_digit_lower (Byte.to_N b mod 16) ->
  a = b.
Proof.
  intros Hhigh Hlow.
  apply (f_equal hex_value) in Hhigh, Hlow.
  destruct (hex_value_of_digits a) as [Ha1 Ha2].
  destruct (hex_value_of_digits b) as [Hb1 Hb2].
  rewrite Ha1, Hb1 in Hhigh. rewrite Ha2, Hb2 in Hlow.
  assert (Hn : Byte.to_N a = Byte.to_N b).
  { rewrite (N.div_mod (Byte.to_N a) 16), (N.div_mod (Byte.to_N b) 16)
      by discriminate.
    congruence. }
  pose proof (Byte.of_to_N a) as Hof. rewrite Hn, Byte.of_to_N in Hof.
  congruence.
Qed.

Lemma canonical_guid_inj (raw1 raw2 : list byte) :
  length raw1 = 16%nat -> length raw2 = 16%nat ->
  canonical_guid raw1 = canonical_guid raw2 -> raw1 = raw2.
Proof.
  intros H1 H2.
  do 16 (destruct raw1 as [| ? raw1]; [discriminate |]).
  destruct raw1; [| discriminate].
  do 16 (destruct raw2 as [| ? raw2]; [discriminate |]).
  destruct raw2; [| discriminate].
  cbv [canonical_guid guid_groups hyphenate map concat hex_byte nth app].
  intros [=].
  repeat match goal with
         | Hh : hex_digit_lower (Byte.to_N ?a / 16)
                = hex_digit_lower (Byte.to_N ?b / 16),
           Hl : hex_digit_lower (Byte.to_N ?a mod 16)
                = hex_digit_lower (Byte.to_N ?b mod 16) |- _ =>
           pose proof (hex_byte_inj a b Hh Hl); subst a; clear Hh Hl
         end.
  reflexivity.
Qed.

(** X12.  [set_hex] writes two cells and no other: the buffer keeps its
    length and every other cell; the cell at [buf] takes the digit of the
    high four bits and the next one the digit of the low four bits, both
    lowercase hexadecimal, and the byte is read back from them as
    16 * high + low. *)
Theorem set_hex_writes_two_digits (buf : list ascii) (pos : nat) (value : byte) :
  length (set_hex buf pos value) = length buf
  /\ (forall i : nat,
        i <> pos -> i <> S pos -> set_hex buf pos value !! i = buf !! i)
  /\ ((S pos < length buf)%nat ->
      exists high low : ascii,
        set_hex buf pos value !! pos = Some high
        /\ set_hex buf pos value !! S pos = Some low
        /\ is_lower_hex high = true /\ is_lower_hex low = true
        /\ (16 * hex_value high + hex_value low)%N = Byte.to_N value).
Proof.
  rewrite set_hex_digits. split; [| split].
  - rewrite !length_insert. reflexivity.
  - intros i Hi Hsi. rewrite !list_lookup_insert_ne by congruence. reflexivity.
  - intros Hroom.
    exists (hex_digit_lower (Byte.to_N value / 16)),
           (hex_digit_lower (Byte.to_N value mod 16)).
    destruct (hex_value_of_digits value) as [-> ->].
    destruct (digits_are_lower_hex value) as [-> ->].
    rewrite list_lookup_insert_ne by lia.
    rewrite list_lookup_insert_eq by lia.
    rewrite list_lookup_insert_eq by (rewrite length_insert; lia).
    repeat split. symmetry. apply N.div_mod. discriminate.
Qed.

Section IdentifierShape.
Context `{P : Platform}.

(** The buffer after a successful call. *)
Lemma guid_written name l st gpart guid_buf guid_buf_size :
  stra_to_str name = Some l ->
  gpt_get_partition_by_label l = (st, gpart) ->
  EFI_ERROR st = false ->
  length (unique gpart) = 16%nat ->
  37 <= guid_buf_size <= Z.of_nat (length guid_buf) ->
  get_unique_guid_for_partition name guid_buf guid_buf_size
  = (AVB_IO_RESULT_OK,
     canonical_guid (unique gpart) ++ Ascii.zero :: drop 37 guid_buf).
Proof.
  intros Hl Hg Hst Hraw Hsize.
  unfold get_unique_guid_for_partition. rewrite Hl, Hg, Hst.
  destruct (Z.ltb_spec guid_buf_size 37) as [| _]; [lia |].
  cbv zeta. rewrite !set_hex_digits.
  destruct (unique gpart) as [| b0 raw]; [discriminate |].
  do 15 (destruct raw as [| ? raw]; [discriminate |]).
  destruct raw; [| discriminate].
  assert (Hbuf : (37 <= length guid_buf)%nat) by lia. clear Hsize.
  do 37 (destruct guid_buf as [| ? guid_buf]; [simpl in Hbuf; lia |]).
  reflexivity.
Qed.

(** X13.  [get_unique_guid_for_partition] returns OK only for a name that
    resolves and a buffer size of at least 37; every other call returns OOM
    or IOError (never NoSuchPartition or RangeOutsidePartition) and leaves
    the buffer as it was. *)
Theorem guid_outcome name guid_buf guid_buf_size :
  let '(res, out) :=
    get_unique_guid_for_partition name guid_buf guid_buf_size in
  (res = AVB_IO_RESULT_OK /\ 37 <= guid_buf_size
   /\ exists l st gpart,
        stra_to_str name = Some l
        /\ gpt_get_partition_by_label l = (st, gpart)
        /\ EFI_ERROR st = false)
  \/ (out = guid_buf
      /\ (res = AVB_IO_RESULT_ERROR_OOM \/ res = AVB_IO_RESULT_ERROR_IO)).
Proof.
  unfold get_unique_guid_for_partition.
  destruct (stra_to_str name) as [l |] eqn:Hl;
    [| right; split; [reflexivity | left; reflexivity]].
  destruct (gpt_get_partition_by_label l) as [st gpart] eqn:Hg.
  destruct (EFI_ERROR st) eqn:Hst;
    [right; split; [reflexivity | right; reflexivity] |].
  destruct (Z.ltb_spec guid_buf_size 37);
    [right; split; [reflexivity | right; reflexivity] |].
  cbv zeta. left. split; [reflexivity |]. split; [assumption |].
  exists l, st, gpart. repeat split; first [reflexivity | assumption].
Qed.

(** X14.  After a successful call the buffer holds a C string of length 36:
    its first 36 characters are lowercase hexadecimal digits and hyphens,
    with the hyphens at indices 8, 13, 18 and 23, none of them is NUL, the
    NUL sits at index 36, and the buffer has kept its length. *)
Theorem guid_is_c_string name l st gpart guid_buf guid_buf_size :
  stra_to_str name = Some l ->
  gpt_get_partition_by_label l = (st, gpart) ->
  EFI_ERROR st = false ->
  length (unique gpart) = 16%nat ->
  37 <= guid_buf_size <= Z.of_nat (length guid_buf) ->
  let out := snd (get_unique_guid_for_partition name guid_buf guid_buf_size) in
  Forall (fun c => is_lower_hex c = true \/ c = "-"%char) (take 36 out)
  /\ Forall (fun c => c <> Ascii.zero) (take 36 out)
  /\ out !! 8%nat = Some "-"%char /\ out !! 13%nat = Some "-"%char
  /\ out !! 18%nat = Some "-"%char /\ out !! 23%nat = Some "-"%char
  /\ out !! 36%nat = Some Ascii.zero
  /\ length out = length guid_buf.
Proof.
  intros Hl Hg Hst Hraw Hsize out. subst out.
  rewrite (guid_written name l st gpart guid_buf guid_buf_size) by assumption.
  cbn [snd].
  assert (Hshape : Forall (fun c => is_lower_hex c = true \/ c = "-"%char)
                     (canonical_guid (unique gpart))).
  { cbv [canonical_guid guid_groups hyphenate map concat hex_byte app].
    repeat (apply Forall_cons_2;
            [first [right; reflexivity
                   | left; apply (digits_are_lower_hex _)] |]).
    apply Forall_nil_2. }
  rewrite take_app_length' by (symmetry; apply canonical_guid_length).
  split; [exact Hshape |]. split.
  { eapply Forall_impl; [exact Hshape |]. apply lower_hex_not_nul. }
  assert (Hhyphen : forall i : nat,
            i = 8%nat \/ i = 13%nat \/ i = 18%nat \/ i = 23%nat ->
            (canonical_guid (unique gpart)
               ++ Ascii.zero :: drop 37 guid_buf) !! i = Some "-"%char).
  { intros i Hi.
    rewrite lookup_app_l by (rewrite canonical_guid_length; lia).
    destruct Hi as [-> | [-> | [-> | ->]]]; reflexivity. }
  do 4 (split; [apply Hhyphen; tauto |]).
  split.
  - rewrite lookup_app_r by (rewrite canonical_guid_length; lia).
    rewrite canonical_guid_length. reflexivity.
  - rewrite length_app, canonical_guid_length. cbn [length].
    rewrite length_drop. lia.
Qed.

(** X15.  The rendering loses nothing: two partitions with 16-byte
    identifiers whose calls leave the same 36 characters have the same
    identifier. *)
Theorem guid_determines_identifier
    name1 name2 l1 l2 st1 st2 gpart1 gpart2 buf1 buf2 size1 size2 :
  stra_to_str name1 = Some l1 ->
  gpt_get_partition_by_label l1 = (st1, gpart1) ->
  EFI_ERROR st1 = false ->
  stra_to_str name2 = Some l2 ->
  gpt_get_partition_by_label l2 = (st2, gpart2) ->
  EFI_ERROR st2 = false ->
  length (unique gpart1) = 16%nat -> length (unique gpart2) = 16%nat ->
  37 <= size1 <= Z.of_nat (length buf1) ->
  37 <= size2 <= Z.of_nat (length buf2) ->
  take 36 (snd (get_unique_guid_for_partition name1 buf1 size1))
  = take 36 (snd (get_unique_guid_for_partition name2 buf2 size2)) ->
  unique gpart1 = unique gpart2.
Proof.
  intros Hl1 Hg1 Hst1 Hl2 Hg2 Hst2 Hraw1 Hraw2 Hsize1 Hsize2.
  rewrite (guid_written name1 l1 st1 gpart1 buf1 size1) by assumption.
  rewrite (guid_written name2 l2 st2 gpart2 buf2 size2) by assumption.
  cbn [snd]. rewrite !take_app_length' by (symmetry; apply canonical_guid_length).
  apply canonical_guid_inj; assumption.
Qed.

End IdentifierShape.

(** ** Name resolution and the partition size *)

Section Resolution.
Context `{P : Platform} {Disk : Type} `{D : !EFI_DISK_IO Disk}.
Implicit Types (w : world Disk) (gpart : gpt_partition_interface).

(** X16.  The two I/O callbacks return OOM exactly when the name cannot be
    converted, and NoSuchPartition exactly when it was converted and the
    lookup failed; [get_unique_guid_for_partition] returns OOM in the same
    case.  A conversion failure is reported whether or not the partition
    exists. *)
Theorem name_resolution_errors w name off n buf out0 guid_buf guid_buf_size :
  let converted := stra_to_str name in
  let missing :=
    exists l, converted = Some l
              /\ EFI_ERROR (fst (gpt_get_partition_by_label l)) = true in
  (fst (fst (fst (read_from_partition w name off n buf out0)))
   = AVB_IO_RESULT_ERROR_OOM <-> converted = None)
  /\ (fst (write_to_partition w name off n buf)
      = AVB_IO_RESULT_ERROR_OOM <-> converted = None)
  /\ (fst (get_unique_guid_for_partition name guid_buf guid_buf_size)
      = AVB_IO_RESULT_ERROR_OOM <-> converted = None)
  /\ (fst (fst (fst (read_from_partition w name off n buf out0)))
      = AVB_IO_RESULT_ERROR_NO_SUCH_PARTITION <-> missing)
  /\ (fst (write_to_partition w name off n buf)
      = AVB_IO_RESULT_ERROR_NO_SUCH_PARTITION <-> missing).
Proof.
  intros converted missing. subst converted missing.
  unfold read_from_partition, write_to_partition,
    get_unique_guid_for_partition.
  destruct (stra_to_str name) as [l |].
  2: { repeat split; try reflexivity; try discriminate;
         intros (l & Hl & _); discriminate. }
  destruct (gpt_get_partition_by_label l) as [st gpart] eqn:Hg.
  assert (Hmiss : (exists l0, Some l = Some l0
                     /\ EFI_ERROR (fst (gpt_get_partition_by_label l0)) = true)
                  <-> EFI_ERROR st = true).
  { split.
    - intros (l0 & [= <-] & Herr). rewrite Hg in Herr. exact Herr.
    - intros Herr. exists l. rewrite Hg. auto. }
  rewrite Hmiss. clear Hmiss.
  destruct (EFI_ERROR st).
  { repeat split; try reflexivity; discriminate. }
  cbv zeta.
  match goal with
  | |- context [match ?norm with Some _ => _ | None => _ end] =>
    destruct norm as [eff |]
  end.
  2: { destruct (guid_buf_size <? 37); cbn;
         repeat split; discriminate. }
  destruct (ReadDisk _ _ _ _ _) as [rstatus data].
  destruct (n >? _); [| destruct (WriteDisk _ _ _ _ _) as [wstatus disk]];
    destruct (guid_buf_size <? 37); destruct (EFI_ERROR rstatus);
    try destruct (EFI_ERROR wstatus); cbn; repeat split; discriminate.
Qed.

(** X17.  [partition_size] is the number of blocks times the block size,
    reduced to 64 bits; on a well-formed handle that spans at least one
    block and whose byte size fits 64 bits it is exactly
    (ending_lba - starting_lba + 1) * BlockSize. *)
Theorem partition_size_is_blocks_times_block_size gpart :
  partition_size_of gpart
  = u64 ((ending_lba gpart - starting_lba gpart + 1) * BlockSize gpart)
  /\ (gpart_wf gpart ->
      starting_lba gpart <= ending_lba gpart ->
      (ending_lba gpart - starting_lba gpart + 1) * BlockSize gpart < 2 ^ 64 ->
      partition_size_of gpart
      = (ending_lba gpart - starting_lba gpart + 1) * BlockSize gpart).
Proof.
  split; [| apply partition_size_exact].
  unfold partition_size_of, u64.
  rewrite Zplus_mod_idemp_l, Zmult_mod_idemp_l. reflexivity.
Qed.

End Resolution.

(** ** The further properties on the concrete machine *)

Section FurtherOnTheTestBed.
Import TestBed.

Ltac by_evaluation :=
  first [ reflexivity
        | vm_compute; repeat split; first [reflexivity | discriminate] ].

(** The RAM disk keeps what was written to it. *)
Lemma ram_disk_keeps_writes : read_after_write (list byte).
Proof.
  intros d d' media offset size data buf Hoff Hsize Hwrite.
  cbn [ReadDisk WriteDisk ram_disk] in *. unfold ram_write in Hwrite.
  unfold ram_read.
  destruct (Z.leb_spec (offset + size) (Z.of_nat (length d))) as [Hfit |];
    [| discriminate].
  injection Hwrite as <-.
  assert (Hhead : length (take (Z.to_nat offset) d) = Z.to_nat offset)
    by (rewrite length_take; lia).
  assert (Hmid : length (take (Z.to_nat size) data) = Z.to_nat size)
    by (rewrite length_take; lia).
  assert (Hlen : length (take (Z.to_nat offset) d ++ take (Z.to_nat size) data
                         ++ drop (Z.to_nat (offset + size)) d)
                 = length d).
  { rewrite !length_app, Hhead, Hmid, length_drop. lia. }
  rewrite Hlen.
  destruct (Z.leb_spec (offset + size) (Z.of_nat (length d))); [| lia].
  rewrite drop_app_length' by (symmetry; exact Hhead).
  rewrite take_app_length' by (symmetry; exact Hmid).
  reflexivity.
Qed.

Lemma partition_size_is_blocks_times_block_size_witness :
  partition_size_of boot
  = (ending_lba boot - starting_lba boot + 1) * BlockSize boot.
Proof.
  apply (partition_size_is_blocks_times_block_size boot); by_evaluation.
Defined.

Lemma name_resolution_errors_witness :
  fst (write_to_partition blank "nope" 0 4 [x01; x02; x03; x04])
  = AVB_IO_RESULT_ERROR_NO_SUCH_PARTITION
  /\ fst (get_unique_guid_for_partition (P := exhausted_platform) "boot"
            (replicate 40 "x"%char) 40)
     = AVB_IO_RESULT_ERROR_OOM.
Proof.
  split.
  - apply (name_resolution_errors (P := platform) blank "nope" 0 4
             [x01; x02; x03; x04] 0 [] 0).
    exists "nope"%string. split; reflexivity.
  - apply (name_resolution_errors (P := exhausted_platform) blank "boot" 0 4
             [x01; x02; x03; x04] 0 (replicate 40 "x"%char) 40).
    reflexivity.
Defined.

Lemma read_from_partition_outcome_witness :
  let '(res, w', buf', count) :=
    read_from_partition blank "boot" 500 100 (replicate 100 xff) 7 in
  (w' = blank /\ buf' = replicate 100 xff /\ count = 7
   /\ (res = AVB_IO_RESULT_ERROR_OOM
       \/ res = AVB_IO_RESULT_ERROR_NO_SUCH_PARTITION
       \/ res = AVB_IO_RESULT_ERROR_RANGE_OUTSIDE_PARTITION))
  \/ (exists media o len st,
        w' = World (storage blank) (ReadDiskCall media o len st :: calls blank)
        /\ ReadDisk (storage blank) media o len (replicate 100 xff)
           = (st, buf')
        /\ 0 <= len <= 100
        /\ (if EFI_ERROR st
            then res = AVB_IO_RESULT_ERROR_IO /\ count = 0
            else res = AVB_IO_RESULT_OK /\ count = len)).
Proof.
  apply (read_from_partition_outcome (P := platform) blank "boot" 500 100
           (replicate 100 xff) 7).
  by_evaluation.
Defined.

Lemma read_range_error_iff_witness :
  fst (fst (fst (read_from_partition blank "boot" (- 600) 16
                   (replicate 16 xff) 0)))
  = AVB_IO_RESULT_ERROR_RANGE_OUTSIDE_PARTITION
  <-> - 600 < 0 /\ partition_size_of boot < - - 600.
Proof.
  apply (read_range_error_iff (P := platform) blank "boot" "boot"%string
           EFI_SUCCESS boot (- 600) 16 (replicate 16 xff) 0);
    by_evaluation.
Defined.

Lemma write_in_range_refused_iff_witness :
  (fst (write_to_partition blank "boot" 500 100 (replicate 100 xff))
   = AVB_IO_RESULT_ERROR_RANGE_OUTSIDE_PARTITION
   <-> partition_size_of boot
       < spec_effective_offset (partition_size_of boot) 500 + 100)
  /\ (partition_size_of boot
      < spec_effective_offset (partition_size_of boot) 500 + 100 ->
      write_to_partition blank "boot" 500 100 (replicate 100 xff)
      = (AVB_IO_RESULT_ERROR_RANGE_OUTSIDE_PARTITION, blank)).
Proof.
  apply (write_in_range_refused_iff (P := platform) blank "boot"
           "boot"%string EFI_SUCCESS boot 500 100 (replicate 100 xff));
    by_evaluation.
Defined.

Lemma valid_requests_stay_inside_partition_witness :
  (forall media o len status,
     calls (snd (fst (fst (read_from_partition blank "boot" 500 100
                             (replicate 100 xff) 0))))
     = ReadDiskCall media o len status :: calls blank ->
     starting_lba boot * BlockSize boot <= o
     /\ o + len <= (ending_lba boot + 1) * BlockSize boot)
  /\ (forall media o len data status,
       calls (snd (write_to_partition blank "boot" 500 100
                     (replicate 100 xff)))
       = WriteDiskCall media o len data status :: calls blank ->
       starting_lba boot * BlockSize boot <= o
       /\ o + len <= (ending_lba boot + 1) * BlockSize boot).
Proof.
  apply (valid_requests_stay_inside_partition (P := platform) blank "boot"
           "boot"%string EFI_SUCCESS boot 500 100 (replicate 100 xff) 0);
    by_evaluation.
Defined.

Lemma read_tail_of_partition_witness :
  read_from_partition blank "boot" (- 64) 4096 (replicate 64 xff) 0
  = (AVB_IO_RESULT_OK,
     World (storage blank) [ReadDiskCall 0 960 64 EFI_SUCCESS],
     replicate 64 x00, 64).
Proof.
  exact (read_tail_of_partition (P := platform) blank "boot" "boot"%string
           EFI_SUCCESS boot 64 4096 (replicate 64 xff) 0
           eq_refl eq_refl eq_refl
           ltac:(by_evaluation) ltac:(by_evaluation) ltac:(by_evaluation)
           ltac:(by_evaluation)).
Defined.

Lemma at_partition_end_witness :
  let '(res, w', _, count) :=
    read_from_partition blank "boot" (partition_size_of boot) 16
      (replicate 16 xff) 9 in
  count = 0
  /\ (exists status,
       calls w'
       = ReadDiskCall (MediaId boot)
           (u64 (starting_lba boot * BlockSize boot + partition_size_of boot))
           0 status
         :: calls blank)
  /\ (0 < 16 ->
      write_to_partition blank "boot" (partition_size_of boot) 16
        (replicate 16 xff)
      = (AVB_IO_RESULT_ERROR_RANGE_OUTSIDE_PARTITION, blank)).
Proof.
  apply (at_partition_end (P := platform) blank "boot" "boot"%string
           EFI_SUCCESS boot 16 (replicate 16 xff) 9);
    by_evaluation.
Defined.

Lemma zero_length_requests_witness :
  (exists status,
     calls (snd (fst (fst (read_from_partition blank "boot" 512 0 [] 9))))
     = ReadDiskCall 0 1024 0 status :: calls blank)
  /\ snd (read_from_partition blank "boot" 512 0 [] 9) = 0
  /\ write_to_partition blank "boot" 512 0 []
     = (AVB_IO_RESULT_OK,
        World (storage blank) [WriteDiskCall 0 1024 0 [] EFI_SUCCESS]).
Proof.
  exact (zero_length_requests (P := platform) blank "boot" "boot"%string
           EFI_SUCCESS boot 512 [] 9 eq_refl eq_refl eq_refl
           ltac:(by_evaluation) ltac:(by_evaluation)).
Defined.

Lemma write_then_read_returns_data_witness :
  let data := [x01; x02; x03; x04] in
  let w1 := snd (write_to_partition blank "boot" 8 4 data) in
  exists call,
    read_from_partition w1 "boot" (- 504) 4 (replicate 6 xff) 0
    = (AVB_IO_RESULT_OK, World (storage w1) (call :: calls w1),
       take (Z.to_nat 4) data ++ drop (Z.to_nat 4) (replicate 6 xff), 4).
Proof.
  intros data w1.
  apply (write_then_read_returns_data (P := platform) blank w1 "boot"
           "boot"%string EFI_SUCCESS boot 8 (- 504) 4 data
           (replicate 6 xff) 0 ram_disk_keeps_writes);
    by_evaluation.
Defined.

Lemma validate_trusts_any_prefix_witness :
  validate_vbmeta_public_key (P := platform)
    (Some (take (Z.to_nat 2) avb_pk ++ [xff])) 2 None 0 (Some false)
  = (AVB_IO_RESULT_OK, Some true).
Proof.
  apply (validate_trusts_any_prefix (P := platform) 2 [xff] None 0 false).
  by_evaluation.
Defined.

Lemma set_hex_writes_two_digits_witness :
  exists high low : ascii,
    set_hex (replicate 4 "x"%char) 1 xa7 !! 1%nat = Some high
    /\ set_hex (replicate 4 "x"%char) 1 xa7 !! 2%nat = Some low
    /\ is_lower_hex high = true /\ is_lower_hex low = true
    /\ (16 * hex_value high + hex_value low)%N = Byte.to_N xa7.
Proof.
  apply (set_hex_writes_two_digits (replicate 4 "x"%char) 1 xa7).
  cbn. lia.
Defined.

Lemma guid_is_c_string_witness :
  let out :=
    snd (get_unique_guid_for_partition "boot" (replicate 40 "x"%char) 40) in
  Forall (fun c => is_lower_hex c = true \/ c = "-"%char) (take 36 out)
  /\ Forall (fun c => c <> Ascii.zero) (take 36 out)
  /\ out !! 8%nat = Some "-"%char /\ out !! 13%nat = Some "-"%char
  /\ out !! 18%nat = Some "-"%char /\ out !! 23%nat = Some "-"%char
  /\ out !! 36%nat = Some Ascii.zero
  /\ length out = length (replicate 40 "x"%char).
Proof.
  apply (guid_is_c_string (P := platform) "boot" "boot"%string
           EFI_SUCCESS boot (replicate 40 "x"%char) 40);
    by_evaluation.
Defined.

Lemma guid_determines_identifier_witness : unique boot = unique ghost.
Proof.
  apply (guid_determines_identifier (P := platform) "boot" "ghost"
           "boot"%string "ghost"%string EFI_SUCCESS EFI_SUCCESS boot ghost
           (replicate 40 "x"%char) (replicate 37 "y"%char) 40 37);
    by_evaluation.
Defined.

End FurtherOnTheTestBed.
